(** * Architectural-Design: the socket relay, the 3D viewer zoom and the canvas undo

    A shallow embedding of three pieces of the application:
    - the socket.io handlers of the Express server (join-project,
      design-update, disconnect),
    - the zoom state of [Simple3DViewer] (handleWheel, resetView),
    - the undo action of [DrawingCanvas].                                   *)

From Stdlib Require Import ZArith NArith DecimalString Floats.
From stdpp Require Import base gmap strings list fin_maps fin_sets sorting.

Local Set Warnings "-register-all,-clear-no-such-hyp".

(* ===================================================================== *)
(** ** The collaboration relay (server, [io.on('connection', ...)])       *)
(* ===================================================================== *)

Module Relay.

Local Open Scope string_scope.

(** JavaScript primitives.  Room names are primitives: socket.io keeps its
    rooms in a [Map], whose keys are compared by value on primitives.
    Numbers are confined to integers, on which that comparison is integer
    equality; the handlers never compute with them. *)
Inductive prim :=
| PUndefined
| PNull
| PBool (b : bool)
| PNum (n : Z)
| PStr (s : string).

(** What a client can send as an event argument: a deserialised value. *)
Inductive value :=
| VPrim (p : prim)
| VArr (items : list value)
| VObj (fields : list (string * value)).

#[global] Instance prim_eq_dec : EqDecision prim.
Proof. solve_decision. Defined.

Definition prim_encode (p : prim) : unit + unit + bool + Z + string :=
  match p with
  | PUndefined => inl (inl (inl (inl tt)))
  | PNull => inl (inl (inl (inr tt)))
  | PBool b => inl (inl (inr b))
  | PNum n => inl (inr n)
  | PStr s => inr s
  end.

Definition prim_decode (x : unit + unit + bool + Z + string) : prim :=
  match x with
  | inl (inl (inl (inl _))) => PUndefined
  | inl (inl (inl (inr _))) => PNull
  | inl (inl (inr b)) => PBool b
  | inl (inr n) => PNum n
  | inr s => PStr s
  end.

#[global] Instance prim_countable : Countable prim.
Proof.
  apply (inj_countable' prim_encode prim_decode).
  by intros [].
Defined.

Abbreviation SocketId := string.
Abbreviation Room := prim.

(** The state socket.io keeps for the namespace: the connected sockets and
    the rooms of the adapter, each room a set of socket ids.  The source
    declares no state of its own. *)
Record Server := mkServer {
  sockets : gset SocketId;
  rooms : gmap Room (gset SocketId)
}.

Definition empty_server : Server := mkServer ∅ ∅.

Definition members (s : Server) (r : Room) : gset SocketId :=
  default ∅ (rooms s !! r).

(** The lines the handlers write with [console.log]. *)
Inductive log_line :=
| LogConnected (id : SocketId)
| LogJoined (id : SocketId) (projectId : value)
| LogDisconnected (id : SocketId).

(** What a handler does to the outside: a log line, or an event emitted
    to one client. *)
Inductive effect :=
| Log (l : log_line)
| Send (to : SocketId) (event : string) (data : value).

(** How a handler ends.  [Throws] is an uncaught [TypeError].
    [Unmodelled] marks a join-project whose room argument is an array or
    an object: the rooms such an argument creates are not represented. *)
Inductive outcome :=
| Done (s : Server) (out : list effect)
| Throws
| Unmodelled.

(** *** The socket.io operations the handlers call *)

(** A value used as a room name. *)
Definition as_room (v : value) : option Room :=
  match v with
  | VPrim p => Some p
  | _ => None
  end.

(** [socket.join(room)]: the socket becomes a member of [room]; the room
    is created when absent; other memberships are untouched. *)
Definition socket_join (s : Server) (id : SocketId) (r : Room) : Server :=
  mkServer (sockets s) (<[r := {[id]} ∪ members s r]> (rooms s)).

(** On connection socket.io registers the socket and has it join the room
    named by its own id. *)
Definition socket_connect (s : Server) (id : SocketId) : Server :=
  socket_join (mkServer ({[id]} ∪ sockets s) (rooms s)) id (PStr id).

(** On disconnection socket.io has the socket leave every room, and a room
    left without members is deleted. *)
Definition leave_room (id : SocketId) (m : gset SocketId) : option (gset SocketId) :=
  let m' := m ∖ {[id]} in
  if decide (m' = ∅) then None else Some m'.

Definition socket_leave_all (s : Server) (id : SocketId) : Server :=
  mkServer (sockets s ∖ {[id]}) (omap (leave_room id) (rooms s)).

(** What the argument of [socket.to] selects (socket.io 4): the listed
    rooms, or every socket when no room is listed. *)
Inductive target :=
| ToEveryone
| ToRooms (rs : list Room).

(** [socket.to(v)]: an array lists the rooms, any other value is the one
    room.  The broadcast goes to every socket when the set of rooms is
    empty, which only the empty array gives.  An object, or an array inside
    the array, is a room name compared by reference: no room has it. *)
Definition room_target (v : value) : target :=
  match v with
  | VPrim p => ToRooms [p]
  | VArr [] => ToEveryone
  | VArr items => ToRooms (omap as_room items)
  | VObj _ => ToRooms []
  end.

Definition targeted (s : Server) (tg : target) : gset SocketId :=
  match tg with
  | ToEveryone => sockets s
  | ToRooms rs => ⋃ (members s <$> rs)
  end.

(** The sockets [socket.to(...)] reaches: the targeted ones, without
    those of the room named by the sender's id.  That room holds the sender
    itself, and any socket that has joined a room of that name. *)
Definition socket_to (s : Server) (id : SocketId) (tg : target) : gset SocketId :=
  targeted s tg ∖ members s (PStr id).

(** [socket.to(...).emit(event, data)] *)
Definition emit_to (s : Server) (id : SocketId) (tg : target)
    (event : string) (data : value) : list effect :=
  (λ t, Send t event data) <$> elements (socket_to s id tg).

(** *** Property reads *)

Fixpoint assoc (k : string) (fields : list (string * value)) : option value :=
  match fields with
  | [] => None
  | (k', v) :: rest => if decide (k = k') then Some v else assoc k rest
  end.

(** [data.k] for a name [k] that is no built-in property: [None] is the
    [TypeError] of reading a property of [null] or [undefined]; a missing
    property reads as [undefined]. *)
Definition get (data : value) (k : string) : option value :=
  match data with
  | VPrim PUndefined | VPrim PNull => None
  | VObj fields => Some (default (VPrim PUndefined) (assoc k fields))
  | _ => Some (VPrim PUndefined)
  end.

(** *** The handlers of the source *)

(** [io.on('connection', (socket) => { console.log(...); ... })] *)
Definition on_connection (s : Server) (id : SocketId) : outcome :=
  Done (socket_connect s id) [Log (LogConnected id)].

(** [socket.on('join-project', (projectId) => {
       socket.join(projectId);
       console.log(`User ${socket.id} joined project ${projectId}`); })] *)
Definition on_join_project (s : Server) (id : SocketId) (projectId : value) : outcome :=
  match as_room projectId with
  | Some r => Done (socket_join s id r) [Log (LogJoined id projectId)]
  | None => Unmodelled
  end.

(** [socket.on('design-update', (data) => {
       socket.to(data.projectId).emit('design-update', data); })] *)
Definition on_design_update (s : Server) (id : SocketId) (data : value) : outcome :=
  match get data "projectId" with
  | None => Throws
  | Some p => Done s (emit_to s id (room_target p) "design-update" data)
  end.

(** [socket.on('disconnect', () => { console.log(...); })]; the socket has
    left its rooms by the time the handler runs. *)
Definition on_disconnect (s : Server) (id : SocketId) : outcome :=
  Done (socket_leave_all s id) [Log (LogDisconnected id)].

(** *** Runs of the server *)

Inductive event :=
| Connection (id : SocketId)
| JoinProject (id : SocketId) (projectId : value)
| DesignUpdate (id : SocketId) (data : value)
| Disconnect (id : SocketId).

Definition event_socket (e : event) : SocketId :=
  match e with
  | Connection id | JoinProject id _ | DesignUpdate id _ | Disconnect id => id
  end.

(** One event of the event loop.  The three inner handlers are registered
    on a socket when it connects and die with it, so they only ever run for
    a connected socket, and a connected id does not connect again. *)
Definition step (s : Server) (e : event) : outcome :=
  match e with
  | Connection id =>
      if decide (id ∈ sockets s) then Done s [] else on_connection s id
  | JoinProject id projectId =>
      if decide (id ∈ sockets s) then on_join_project s id projectId else Done s []
  | DesignUpdate id data =>
      if decide (id ∈ sockets s) then on_design_update s id data else Done s []
  | Disconnect id =>
      if decide (id ∈ sockets s) then on_disconnect s id else Done s []
  end.

(** A run: the events in order, the effects accumulated; it stops at the
    first handler that does not return. *)
Fixpoint run (s : Server) (es : list event) : outcome :=
  match es with
  | [] => Done s []
  | e :: es' =>
      match step s e with
      | Done s1 out1 =>
          match run s1 es' with
          | Done s2 out2 => Done s2 (out1 ++ out2)
          | o => o
          end
      | o => o
      end
  end.

(** The events delivered to one client, in order. *)
Definition received (id : SocketId) (out : list effect) : list (string * value) :=
  omap (λ e, match e with
             | Send t ev d => if decide (t = id) then Some (ev, d) else None
             | Log _ => None
             end) out.

(** The [sequence] properties of the events delivered to one client. *)
Definition sequences (id : SocketId) (out : list effect) : list (option value) :=
  (λ ed, get ed.2 "sequence") <$> received id out.

(** The rooms a socket is a member of. *)
Definition rooms_of (s : Server) (id : SocketId) : gset Room :=
  dom (filter (λ kv, id ∈ kv.2) (rooms s)).

(** Every member of a room is a connected socket, and no room is empty. *)
Definition consistent (s : Server) : Prop :=
  ∀ r m, rooms s !! r = Some m → m ≠ ∅ ∧ m ⊆ sockets s.

(** *** Sample values *)

Definition str (x : string) : value := VPrim (PStr x).
Definition undefined : value := VPrim PUndefined.

(** [{projectId: pid, payload: x}] *)
Definition update (pid x : string) : value :=
  VObj [("projectId", str pid); ("payload", str x)].

(** [{projectId: pid, sequence: n, payload: x}] *)
Definition numbered_update (pid : string) (n : Z) (x : string) : value :=
  VObj [("projectId", str pid); ("sequence", VPrim (PNum n)); ("payload", str x)].

(** Two clients connected, both in room "P1". *)
Definition two_in_P1 : Server :=
  socket_join (socket_join (socket_connect (socket_connect empty_server "c1") "c2")
                           "c1" (PStr "P1")) "c2" (PStr "P1").

(** "c1" and "c2" connected, only "c2" in room "P2". *)
Definition only_c2_in_P2 : Server :=
  socket_join (socket_connect (socket_connect empty_server "c1") "c2") "c2" (PStr "P2").

(** "c1" connected and alone in room "P1". *)
Definition c1_alone_in_P1 : Server :=
  socket_join (socket_connect empty_server "c1") "c1" (PStr "P1").

(** *** Further notions about runs *)

(** Every connected socket is a member of the room named by its own id. *)
Definition in_own_room (s : Server) : Prop :=
  ∀ id, id ∈ sockets s → id ∈ members s (PStr id).

Definition is_design_update (e : event) : bool :=
  match e with
  | DesignUpdate _ _ => true
  | _ => false
  end.

(** The whole visit of one client: it connects, joins the rooms [rs] one
    after the other, and disconnects. *)
Definition visit (id : SocketId) (rs : list Room) : list event :=
  Connection id :: ((λ r, JoinProject id (VPrim r)) <$> rs) ++ [Disconnect id].

(** [null] and [undefined], the two values whose properties cannot be read. *)
Definition nullish (data : value) : Prop :=
  data = VPrim PNull ∨ data = VPrim PUndefined.

(** Three clients in room "P1", of which "c2" has also joined the room
    named "c1", the id of the first. *)
Definition c2_in_room_of_c1 : Server :=
  socket_join
    (socket_join
       (socket_join
          (socket_join (socket_connect (socket_connect (socket_connect empty_server "c1")
                                                       "c2") "c3")
                       "c1" (PStr "P1"))
          "c2" (PStr "P1"))
       "c3" (PStr "P1"))
    "c2" (PStr "c1").

(** [{projectId: []}], with a payload. *)
Definition update_to_nobody_named (x : string) : value :=
  VObj [("projectId", VArr []); ("payload", str x)].

(** *** The wire *)
















End Relay.

(* ===================================================================== *)
(** ** The zoom of [Simple3DViewer]                                       *)
(* ===================================================================== *)

Module Viewer.

Local Set Warnings "-inexact-float".
Local Open Scope float_scope.

(** JavaScript numbers are binary64 floats; the literals [0.1], [0.9],
    [1.1] below denote the nearest binary64 value, as they do in the source. *)

Definition is_neg_zero (x : float) : bool :=
  match classify x with
  | NZero => true
  | _ => false
  end.

(** [Math.min(a, b)]: NaN when an argument is NaN, and -0 is below +0. *)
Definition Math_min (a b : float) : float :=
  if is_nan a || is_nan b then nan
  else if a <? b then a
  else if b <? a then b
  else if is_neg_zero a then a else b.

(** [Math.max(a, b)]: NaN when an argument is NaN, and +0 is above -0. *)
Definition Math_max (a b : float) : float :=
  if is_nan a || is_nan b then nan
  else if b <? a then a
  else if a <? b then b
  else if is_neg_zero a then b else a.

Record XY := mkXY { x : float; y : float }.

(** The [useState] cells of the component. *)
Record ViewState := mkView {
  viewMode : string;
  rotation : XY;
  zoom : float;
  isDragging : bool;
  dragStart : XY
}.

Definition initial_view : ViewState :=
  mkView "perspective"%string (mkXY 0 0) 1 false (mkXY 0 0).

Definition handleMouseDown (readOnly : bool) (clientX clientY : float) (st : ViewState) : ViewState :=
  if readOnly then st
  else mkView (viewMode st) (rotation st) (zoom st) true (mkXY clientX clientY).

Definition handleMouseMove (readOnly : bool) (clientX clientY : float) (st : ViewState) : ViewState :=
  if negb (isDragging st) || readOnly then st
  else
    let deltaX := clientX - x (dragStart st) in
    let deltaY := clientY - y (dragStart st) in
    mkView (viewMode st)
            (mkXY (x (rotation st) + deltaY * 0.5) (y (rotation st) + deltaX * 0.5))
            (zoom st) (isDragging st) (mkXY clientX clientY).

Definition handleMouseUp (st : ViewState) : ViewState :=
  mkView (viewMode st) (rotation st) (zoom st) false (dragStart st).

(** [const delta = e.deltaY > 0 ? 0.9 : 1.1;
     setZoom(prev => Math.max(0.1, Math.min(3, prev * delta)));] *)
Definition handleWheel (readOnly : bool) (deltaY : float) (st : ViewState) : ViewState :=
  if readOnly then st
  else
    let delta := if 0 <? deltaY then 0.9 else 1.1 in
    mkView (viewMode st) (rotation st)
            (Math_max 0.1 (Math_min 3 (zoom st * delta)))
            (isDragging st) (dragStart st).

Definition changeViewMode (mode : string) (st : ViewState) : ViewState :=
  let r :=
    if decide (mode = "top"%string) then mkXY (-90) 0
    else if decide (mode = "front"%string) then mkXY 0 0
    else if decide (mode = "side"%string) then mkXY 0 90
    else mkXY 20 45 in
  mkView mode r (zoom st) (isDragging st) (dragStart st).

Definition resetView (st : ViewState) : ViewState :=
  mkView (viewMode st) (mkXY 20 45) 1 (isDragging st) (dragStart st).

(** What the user can do to the component. *)
Inductive interaction :=
| MouseDown (clientX clientY : float)
| MouseMove (clientX clientY : float)
| MouseUp
| MouseLeave
| Wheel (deltaY : float)
| ClickView (mode : string)
| ClickReset.

(** One interaction, under the [readOnly] prop of the current render. *)
Definition interact (st : ViewState) (re : bool * interaction) : ViewState :=
  let '(readOnly, e) := re in
  match e with
  | MouseDown cx cy => handleMouseDown readOnly cx cy st
  | MouseMove cx cy => handleMouseMove readOnly cx cy st
  | MouseUp | MouseLeave => handleMouseUp st
  | Wheel dy => handleWheel readOnly dy st
  | ClickView mode => changeViewMode mode st
  | ClickReset => resetView st
  end.

Definition interactions (st : ViewState) (es : list (bool * interaction)) : ViewState :=
  foldl interact st es.

(** The closed interval [[0.1, 3]]. *)
Definition in_range (z : float) : bool := (0.1 <=? z) && (z <=? 3).

(** [Math.max(0.1, Math.min(3, prev * delta))], the updater of
    [handleWheel]. *)
Definition wheel_zoom (delta prev : float) : float :=
  Math_max 0.1 (Math_min 3 (prev * delta)).

(** Wheel events on a viewer that is not read-only, one per [deltaY]. *)
Definition wheels (deltaYs : list float) : list (bool * interaction) :=
  (λ dy, (false, Wheel dy)) <$> deltaYs.

(** Mouse moves to the given positions, each under its [readOnly] prop. *)
Definition moves (ms : list (bool * (float * float))) : list (bool * interaction) :=
  (λ m, (m.1, MouseMove m.2.1 m.2.2)) <$> ms.

End Viewer.

(* ===================================================================== *)
(** ** The undo of [DrawingCanvas]                                        *)
(* ===================================================================== *)

Module Canvas.

Inductive shape := Path | IText | Rect | Circle | Line | Arrow | Loaded.

(** A fabric object: [oid] stands for its identity as a JavaScript
    reference, given at construction. *)
Record object := mkObject { oid : nat; kind : shape }.

#[global] Instance shape_eq_dec : EqDecision shape.
Proof. solve_decision. Defined.
#[global] Instance object_eq_dec : EqDecision object.
Proof. solve_decision. Defined.

(** The component: [canvas] is [fabricCanvasRef.current] ([None] is
    [null], before the canvas is created), holding the object stack of the
    fabric canvas; [fresh] numbers the objects constructed so far. *)
Record CanvasState := mkCanvas {
  canvas : option (list object);
  fresh : nat
}.

Definition unmounted : CanvasState := mkCanvas None 0.

(** *** fabric.Canvas *)

(** [canvas.add(o)] pushes on the object stack. *)
Definition canvas_add (o : object) (objs : list object) : list object :=
  objs ++ [o].

(** [canvas.remove(o)] takes out the first entry identical to [o]. *)
Fixpoint canvas_remove (o : object) (objs : list object) : list object :=
  match objs with
  | [] => []
  | o' :: rest => if decide (o = o') then rest else o' :: canvas_remove o rest
  end.

(** Objects constructed one after the other, numbered from [n]. *)
Fixpoint construct (n : nat) (kinds : list shape) : list object :=
  match kinds with
  | [] => []
  | k :: rest => mkObject n k :: construct (S n) rest
  end.

(** *** The component *)

(** The first effect: [new fabric.Canvas(...)], then [loadFromJSON] of the
    initial data when there is some. *)
Definition mount (initialData : list shape) (st : CanvasState) : CanvasState :=
  mkCanvas (Some (construct (fresh st) initialData)) (fresh st + length initialData).

(** [addText], [addRectangle], [addCircle], [addLine], [addArrow], and a
    stroke drawn with the pen: [if (fabricCanvasRef.current && !readOnly)]
    construct an object and [add] it. *)
Definition add (readOnly : bool) (k : shape) (st : CanvasState) : CanvasState :=
  match canvas st with
  | Some objs =>
      if readOnly then st
      else mkCanvas (Some (canvas_add (mkObject (fresh st) k) objs)) (S (fresh st))
  | None => st
  end.

Definition clearCanvas (readOnly : bool) (st : CanvasState) : CanvasState :=
  match canvas st with
  | Some objs => if readOnly then st else mkCanvas (Some []) (fresh st)
  | None => st
  end.

(** [const undo = () => {
       if (fabricCanvasRef.current && !readOnly) {
         const objects = fabricCanvasRef.current.getObjects();
         if (objects.length > 0) {
           fabricCanvasRef.current.remove(objects[objects.length - 1]);
           fabricCanvasRef.current.renderAll(); } } }] *)
Definition undo (readOnly : bool) (st : CanvasState) : CanvasState :=
  match canvas st with
  | Some objects =>
      if readOnly then st
      else if decide (0 < length objects) then
        match objects !! (length objects - 1) with
        | Some top => mkCanvas (Some (canvas_remove top objects)) (fresh st)
        | None => st
        end
      else st
  | None => st
  end.

(** The actions of the toolbar, which is rendered only when the component
    is not read-only, and the creation of the canvas. *)
Inductive action :=
| Mount (initialData : list shape)
| Add (k : shape)
| Clear
| Undo.

Definition act (readOnly : bool) (st : CanvasState) (a : action) : CanvasState :=
  match a with
  | Mount d => mount d st
  | Add k => add readOnly k st
  | Clear => clearCanvas readOnly st
  | Undo => undo readOnly st
  end.

Definition session (st : CanvasState) (acts : list (bool * action)) : CanvasState :=
  foldl (λ st ra, act ra.1 st ra.2) st acts.

Definition objects_of (st : CanvasState) : list object :=
  default [] (canvas st).

(** [older o1 o2]: [o1] was constructed before [o2]. *)
Definition older (o1 o2 : object) : Prop := oid o1 < oid o2.

(** The object stack holds the objects in the order of their
    construction, all of them numbered below [fresh]. *)
Definition well_numbered (st : CanvasState) : Prop :=
  StronglySorted older (objects_of st) ∧
  Forall (λ o, oid o < fresh st) (objects_of st).

(** A canvas created empty, then a rectangle and a circle added. *)
Definition rect_then_circle : list (bool * action) :=
  [(false, Mount []); (false, Add Rect); (false, Add Circle)].

(** Actions done on a read-only component, which redraw nothing: any of
    the toolbar actions, and no creation of the canvas. *)
Definition read_only_action (ra : bool * action) : Prop :=
  ra.1 = true ∧ ∀ d, ra.2 ≠ Mount d.

End Canvas.

(* ===================================================================== *)
(** ** The toolbar of [DrawingCanvas]                                     *)
(* ===================================================================== *)

Module CanvasTools.
Import Canvas.

Local Open Scope string_scope.

(** The component with its tool selection: [selectedTool] is the
    [useState] cell, [isDrawingMode] the property of the fabric canvas
    (meaningful once the canvas exists), [board] the canvas itself. *)
Record ToolState := mkTools {
  selectedTool : string;
  isDrawingMode : bool;
  board : CanvasState
}.

(** Before the first effect: [useState('pen')], no canvas. *)
Definition first_render : ToolState := mkTools "pen" false unmounted.

(** The effect with dependency [[readOnly]]:
    [new fabric.Canvas(..., { isDrawingMode: !readOnly })], then the
    initial data loaded. *)
Definition create_canvas (readOnly : bool) (initialData : list shape)
    (ts : ToolState) : ToolState :=
  mkTools (selectedTool ts) (negb readOnly) (mount initialData (board ts)).

(** The effect with dependencies [[brushSize, brushColor, selectedTool,
    readOnly]]: [if (fabricCanvasRef.current) { ...;
    isDrawingMode = selectedTool === 'pen' && !readOnly }]. *)
Definition sync_brush (readOnly : bool) (ts : ToolState) : ToolState :=
  match canvas (board ts) with
  | Some _ =>
      mkTools (selectedTool ts)
              (bool_decide (selectedTool ts = "pen") && negb readOnly)
              (board ts)
  | None => ts
  end.

(** Both effects, in their order, as they run after the first render and
    after a change of [readOnly]. *)
Definition render_effects (readOnly : bool) (initialData : list shape)
    (ts : ToolState) : ToolState :=
  sync_brush readOnly (create_canvas readOnly initialData ts).

(** [handleToolChange(tool)]: [setSelectedTool(tool)], then the [switch]
    when the canvas exists. *)
Definition handleToolChange (readOnly : bool) (tool : string) (ts : ToolState) : ToolState :=
  match canvas (board ts) with
  | Some _ =>
      if decide (tool = "pen") then mkTools tool true (board ts)
      else if decide (tool = "select") then mkTools tool false (board ts)
      else if decide (tool = "text") then
        mkTools tool (isDrawingMode ts) (add readOnly IText (board ts))
      else if decide (tool = "rectangle") then
        mkTools tool (isDrawingMode ts) (add readOnly Rect (board ts))
      else if decide (tool = "circle") then
        mkTools tool (isDrawingMode ts) (add readOnly Circle (board ts))
      else if decide (tool = "line") then
        mkTools tool (isDrawingMode ts) (add readOnly Line (board ts))
      else if decide (tool = "arrow") then
        mkTools tool (isDrawingMode ts) (add readOnly Arrow (board ts))
      else mkTools tool false (board ts)
  | None => mkTools tool (isDrawingMode ts) (board ts)
  end.

(** A click on a tool button: the handler, and after the render it causes
    the brush effect; React renders again, and runs the effect, only when
    [selectedTool] has changed. *)
Definition click_tool (readOnly : bool) (tool : string) (ts : ToolState) : ToolState :=
  let ts' := handleToolChange readOnly tool ts in
  if decide (selectedTool ts = tool) then ts' else sync_brush readOnly ts'.

(** The shape a tool button adds, if any. *)
Definition tool_shape (tool : string) : option shape :=
  if decide (tool = "text") then Some IText
  else if decide (tool = "rectangle") then Some Rect
  else if decide (tool = "circle") then Some Circle
  else if decide (tool = "line") then Some Line
  else if decide (tool = "arrow") then Some Arrow
  else None.

(** What the user does on the editable component: the toolbar buttons, a
    change of brush size or colour, and a stroke, which the fabric canvas
    takes (adding a path) only in drawing mode. *)
Inductive gesture :=
| ClickTool (tool : string)
| ClickUndo
| ClickClear
| ChangeBrush
| Stroke.

Definition perform (ts : ToolState) (g : gesture) : ToolState :=
  match g with
  | ClickTool tool => click_tool false tool ts
  | ClickUndo => mkTools (selectedTool ts) (isDrawingMode ts) (undo false (board ts))
  | ClickClear => mkTools (selectedTool ts) (isDrawingMode ts) (clearCanvas false (board ts))
  | ChangeBrush => sync_brush false ts
  | Stroke =>
      if isDrawingMode ts
      then mkTools (selectedTool ts) (isDrawingMode ts) (add false Path (board ts))
      else ts
  end.

(** An editing session: the component rendered editable with
    [initialData], then the gestures. *)
Definition editing (initialData : list shape) (gs : list gesture) : ToolState :=
  foldl perform (render_effects false initialData first_render) gs.

End CanvasTools.

(* ===================================================================== *)
(** ** Facts about the relay                                              *)
(* ===================================================================== *)

Module RelayFacts.
Import Relay.
Local Open Scope string_scope.

(** *** Rooms under join and leave *)

Lemma members_join (s : Server) (id : SocketId) (r r' : Room) :
  members (socket_join s id r) r' =
  if decide (r = r') then {[id]} ∪ members s r else members s r'.
Proof.
  unfold members, socket_join; simpl.
  case_decide as Hr.
  - subst r'. by rewrite lookup_insert_eq.
  - by rewrite lookup_insert_ne.
Qed.

Lemma rooms_leave_all (s : Server) (id : SocketId) (r : Room) :
  rooms (socket_leave_all s id) !! r = rooms s !! r ≫= leave_room id.
Proof. unfold socket_leave_all; simpl. apply lookup_omap. Qed.

Lemma members_leave_all (s : Server) (id : SocketId) (r : Room) :
  members (socket_leave_all s id) r = members s r ∖ {[id]}.
Proof.
  unfold members. rewrite rooms_leave_all.
  destruct (rooms s !! r) as [m|]; simpl.
  - unfold leave_room. case_decide as He; simpl; [by rewrite He | done].
  - symmetry. apply leibniz_equiv. set_solver.
Qed.

Lemma difference_singleton_empty (m : gset SocketId) (id : SocketId) :
  m ∖ {[id]} = ∅ ↔ m ⊆ {[id]}.
Proof.
  split.
  - intros He t Ht. destruct (decide (t = id)) as [-> | Hne]; [set_solver |].
    assert (t ∈ m ∖ {[id]}) as Hin by set_solver.
    rewrite He in Hin. set_solver.
  - intros Hsub. apply leibniz_equiv. set_solver.
Qed.

Lemma difference_singleton_empty_not (m : gset SocketId) (id : SocketId) :
  ¬ m ⊆ {[id]} → ∃ t, t ∈ m ∖ {[id]}.
Proof.
  intros Hn. apply set_choose_L. by rewrite difference_singleton_empty.
Qed.

Lemma room_deleted_iff (s : Server) (id : SocketId) (r : Room) :
  rooms (socket_leave_all s id) !! r = None ↔ members s r ⊆ {[id]}.
Proof.
  rewrite rooms_leave_all. unfold members.
  destruct (rooms s !! r) as [m|]; simpl.
  - unfold leave_room. case_decide as He; simpl.
    + split; [intros _ | done]. by apply difference_singleton_empty.
    + split; [done |]. intros Hsub. exfalso. by apply He, difference_singleton_empty.
  - split; [set_solver | done].
Qed.

(** *** What [emit] delivers *)

Lemma elem_of_emit_to (s : Server) (id t : SocketId) (tg : target)
    (ev ev' : string) (data d : value) :
  Send t ev' d ∈ emit_to s id tg ev data ↔
  t ∈ targeted s tg ∧ t ∉ members s (PStr id) ∧ ev' = ev ∧ d = data.
Proof.
  unfold emit_to, socket_to. rewrite list_elem_of_fmap. split.
  - intros (t' & Heq & Hin). inversion Heq; subst.
    apply elem_of_elements in Hin. set_solver.
  - intros (Hin & Hne & -> & ->). exists t. split; [done |].
    apply elem_of_elements. set_solver.
Qed.

Lemma log_not_in_emit_to (s : Server) (id : SocketId) (tg : target)
    (ev : string) (data : value) (l : log_line) :
  Log l ∉ emit_to s id tg ev data.
Proof.
  unfold emit_to. rewrite list_elem_of_fmap. by intros (? & ? & ?).
Qed.

Lemma received_sends (t : SocketId) (ev : string) (data : value) (l : list SocketId) :
  NoDup l →
  received t ((λ t', Send t' ev data) <$> l) =
  if decide (t ∈ l) then [(ev, data)] else [].
Proof.
  unfold received. intros Hnd. induction Hnd as [| a l Ha Hnd IH].
  - case_decide as Hin; [by apply elem_of_nil in Hin | done].
  - cbn [fmap list_fmap omap list_omap]. rewrite IH.
    destruct (decide (a = t)) as [-> | Hne];
      repeat case_decide; try done; set_solver.
Qed.

Lemma received_emit_to (s : Server) (id t : SocketId) (tg : target)
    (ev : string) (data : value) :
  received t (emit_to s id tg ev data) =
  if decide (t ∈ targeted s tg ∧ t ∉ members s (PStr id)) then [(ev, data)] else [].
Proof.
  unfold emit_to. rewrite received_sends by apply NoDup_elements.
  unfold socket_to.
  destruct (decide (t ∈ elements (targeted s tg ∖ members s (PStr id)))) as [Hin | Hin];
    rewrite elem_of_elements in Hin.
  - by rewrite decide_True by set_solver.
  - by rewrite decide_False by set_solver.
Qed.

Lemma targeted_room (s : Server) (r : Room) :
  targeted s (room_target (VPrim r)) = members s r.
Proof. simpl. set_solver. Qed.

Lemma elem_of_targeted_rooms (s : Server) (rs : list Room) (t : SocketId) :
  t ∈ targeted s (ToRooms rs) ↔ ∃ r, r ∈ rs ∧ t ∈ members s r.
Proof.
  simpl. rewrite elem_of_union_list. split.
  - intros (m & (r & -> & Hr)%list_elem_of_fmap & Ht). by exists r.
  - intros (r & Hr & Ht). exists (members s r). split; [| done].
    apply list_elem_of_fmap. by exists r.
Qed.

Lemma targeted_connected (s : Server) (tg : target) :
  consistent s → targeted s tg ⊆ sockets s.
Proof.
  intros Hc. destruct tg as [| rs]; [done |].
  intros t (r & _ & Ht)%elem_of_targeted_rooms. unfold members in Ht.
  destruct (rooms s !! r) as [m |] eqn:Hr; simpl in Ht; [| set_solver].
  destruct (Hc r m Hr) as [_ Hsub]. set_solver.
Qed.

(** What a further join of the sender changes in the targets: nothing
    for the other sockets. *)
Lemma targeted_join (s : Server) (id t : SocketId) (r' : Room) (tg : target) :
  t ≠ id → t ∈ targeted (socket_join s id r') tg ↔ t ∈ targeted s tg.
Proof.
  intros Hne. destruct tg as [| rs]; [done |].
  rewrite !elem_of_targeted_rooms. split; intros (r & Hr & Ht); exists r;
    (split; [done |]); rewrite members_join in *; case_decide; set_solver.
Qed.

(** *** The design-update handler *)

Lemma get_None (data : value) (k : string) :
  get data k = None ↔ nullish data.
Proof.
  unfold nullish. destruct data as [[] | |]; simpl; split; try done;
    try (by intros [? | ?]); auto.
Qed.

Lemma design_update_done (s : Server) (id : SocketId) (data p : value) :
  get data "projectId" = Some p →
  on_design_update s id data =
    Done s (emit_to s id (room_target p) "design-update" data).
Proof. unfold on_design_update. by intros ->. Qed.

Lemma design_update_inv (s s' : Server) (id : SocketId) (data : value) (out : list effect) :
  on_design_update s id data = Done s' out →
  ∃ p, get data "projectId" = Some p ∧ s' = s ∧
       out = emit_to s id (room_target p) "design-update" data.
Proof.
  unfold on_design_update.
  destruct (get data "projectId") as [p |]; simpl; try done.
  intros [= <- <-]. by exists p.
Qed.

Lemma elem_of_rooms_of (s : Server) (id : SocketId) (r : Room) :
  r ∈ rooms_of s id ↔ id ∈ members s r.
Proof.
  unfold rooms_of, members. rewrite elem_of_dom. split.
  - intros [m Hm]. apply map_lookup_filter_Some in Hm as [-> Hin]. done.
  - destruct (rooms s !! r) as [m|] eqn:Hr; simpl; [| set_solver].
    intros Hin. exists m. by apply map_lookup_filter_Some.
Qed.

(** *** Reachable states are consistent *)

Lemma consistent_empty : consistent empty_server.
Proof. intros r m. unfold empty_server; simpl. by rewrite lookup_empty. Qed.

Lemma consistent_join (s : Server) (id : SocketId) (r : Room) :
  id ∈ sockets s → consistent s → consistent (socket_join s id r).
Proof.
  intros Hid Hc r' m. unfold socket_join; simpl.
  destruct (decide (r = r')) as [<- | Hne].
  - rewrite lookup_insert_eq. intros [= <-]. split; [set_solver |].
    unfold members. destruct (rooms s !! r) as [m' |] eqn:Hr; simpl; [| set_solver].
    destruct (Hc r m' Hr) as [_ Hsub]. set_solver.
  - rewrite lookup_insert_ne by done. apply Hc.
Qed.

Lemma consistent_connect (s : Server) (id : SocketId) :
  consistent s → consistent (socket_connect s id).
Proof.
  intros Hc. unfold socket_connect. apply consistent_join; simpl; [set_solver |].
  intros r m Hr. destruct (Hc r m Hr) as [Hne Hsub]. split; [done |].
  simpl. set_solver.
Qed.

Lemma consistent_leave_all (s : Server) (id : SocketId) :
  consistent s → consistent (socket_leave_all s id).
Proof.
  intros Hc r m. rewrite rooms_leave_all.
  destruct (rooms s !! r) as [m' |] eqn:Hr; simpl; [| done].
  unfold leave_room. case_decide as He; [done |]. intros [= <-].
  split; [done |]. destruct (Hc r m' Hr) as [_ Hsub]. simpl. set_solver.
Qed.

Lemma consistent_step (s s' : Server) (e : event) (out : list effect) :
  consistent s → step s e = Done s' out → consistent s'.
Proof.
  intros Hc. destruct e as [id | id p | id d | id]; simpl;
    case_decide as Hid; try (intros [= <- _]; done).
  - intros [= <- _]. by apply consistent_connect.
  - unfold on_join_project. destruct (as_room p); [| done].
    intros [= <- _]. by apply consistent_join.
  - intros (_ & _ & -> & _)%design_update_inv. done.
  - intros [= <- _]. by apply consistent_leave_all.
Qed.

Lemma consistent_run (es : list event) (s s' : Server) (out : list effect) :
  consistent s → run s es = Done s' out → consistent s'.
Proof.
  revert s out. induction es as [| e es IH]; intros s out Hc; simpl.
  - by intros [= <- _].
  - destruct (step s e) as [s1 out1 | |] eqn:Hstep; try done.
    destruct (run s1 es) as [s2 out2 | |] eqn:Hrun; try done.
    intros [= <- _]. eapply IH; [| exact Hrun]. by eapply consistent_step.
Qed.

(** *** The room of a socket's own id *)

Lemma in_own_room_empty : in_own_room empty_server.
Proof. intros id. unfold empty_server; simpl. set_solver. Qed.

Lemma in_own_room_step (s s' : Server) (e : event) (out : list effect) :
  in_own_room s → step s e = Done s' out → in_own_room s'.
Proof.
  intros Ho. destruct e as [id | id p | id d | id]; simpl;
    case_decide as Hid; try (intros [= <- _]; done).
  - intros [= <- _] t. unfold socket_connect. rewrite members_join. simpl.
    intros Ht. case_decide as Heq.
    + injection Heq as <-. set_solver.
    + assert (t ≠ id) by congruence.
      assert (t ∈ sockets s) as Hts by set_solver.
      apply (Ho t Hts).
  - unfold on_join_project. destruct (as_room p) as [r |]; [| done].
    intros [= <- _] t Ht. rewrite members_join. specialize (Ho t Ht).
    case_decide as Heq; [subst r; set_solver | done].
  - intros (_ & _ & -> & _)%design_update_inv. done.
  - intros [= <- _] t. simpl. rewrite members_leave_all. intros Ht.
    assert (t ∈ sockets s ∧ t ≠ id) as [Hts Hne] by set_solver.
    specialize (Ho t Hts). set_solver.
Qed.

Lemma in_own_room_run (es : list event) (s s' : Server) (out : list effect) :
  in_own_room s → run s es = Done s' out → in_own_room s'.
Proof.
  revert s out. induction es as [| e es IH]; intros s out Ho; simpl.
  - by intros [= <- _].
  - destruct (step s e) as [s1 out1 | |] eqn:Hstep; try done.
    destruct (run s1 es) as [s2 out2 | |] eqn:Hrun; try done.
    intros [= <- _]. eapply IH; [| exact Hrun]. by eapply in_own_room_step.
Qed.

(** *** Runs and what they deliver *)

Lemma run_app (s : Server) (es1 es2 : list event) :
  run s (es1 ++ es2) =
  match run s es1 with
  | Done s1 out1 =>
      match run s1 es2 with
      | Done s2 out2 => Done s2 (out1 ++ out2)
      | o => o
      end
  | o => o
  end.
Proof.
  revert s. induction es1 as [| e es1 IH]; intros s; simpl.
  - by destruct (run s es2).
  - destruct (step s e) as [s1 out1 | |]; [| done | done].
    rewrite IH. destruct (run s1 es1) as [s2 out2 | |]; [| done | done].
    destruct (run s2 es2) as [s3 out3 | |]; [| done | done].
    by rewrite app_assoc.
Qed.

Lemma received_app (t : SocketId) (out1 out2 : list effect) :
  received t (out1 ++ out2) = (received t out1 ++ received t out2)%list.
Proof. unfold received. apply omap_app. Qed.

(** *** C1 *)

(** C1, as stated, fails: the relay stamps nothing.  With "c1" and "c2" in
    room "P1", two updates sent by "c1" reach "c2" without any [sequence]
    (so not with 1 and 2), and two updates the sender numbered 7 and 3
    reach "c2" numbered 7 and 3, which is neither increasing nor counted
    from 1. *)
Lemma sequence_not_assigned :
  (∃ s out,
     run two_in_P1 [DesignUpdate "c1" (update "P1" "X");
                    DesignUpdate "c1" (update "P1" "Y")] = Done s out ∧
     sequences "c2" out = [Some undefined; Some undefined] ∧
     sequences "c2" out ≠ [Some (VPrim (PNum 1)); Some (VPrim (PNum 2))]) ∧
  (∃ s out,
     run two_in_P1 [DesignUpdate "c1" (numbered_update "P1" 7 "X");
                    DesignUpdate "c1" (numbered_update "P1" 3 "Y")] = Done s out ∧
     sequences "c2" out = [Some (VPrim (PNum 7)); Some (VPrim (PNum 3))]).
Proof.
  split.
  - eexists _, _. split; [vm_compute; reflexivity |].
    split; [vm_compute; reflexivity | vm_compute; discriminate].
  - eexists _, _. split; vm_compute; reflexivity.
Qed.

(** C1, amended: the design-update handler assigns no sequence number.  It
    leaves the server state as it was, so no counter advances, and the
    [sequence] of every event it delivers is the one of the data the sender
    submitted. *)
Theorem design_update_keeps_sender_sequence
    (s s' : Server) (id : SocketId) (data : value) (out : list effect) :
  on_design_update s id data = Done s' out →
  s' = s ∧
  ∀ t ev d, Send t ev d ∈ out → get d "sequence" = get data "sequence".
Proof.
  intros (r & _ & -> & ->)%design_update_inv. split; [done |].
  intros t ev d (_ & _ & _ & ->)%elem_of_emit_to. done.
Qed.

Lemma design_update_keeps_sender_sequence_witness :
  on_design_update two_in_P1 "c1" (numbered_update "P1" 7 "X") =
    Done two_in_P1 [Send "c2" "design-update" (numbered_update "P1" 7 "X")] ∧
  (two_in_P1 = two_in_P1 ∧
   ∀ t ev d, Send t ev d ∈ [Send "c2" "design-update" (numbered_update "P1" 7 "X")] →
             get d "sequence" = get (numbered_update "P1" 7 "X") "sequence").
Proof.
  split; [vm_compute; reflexivity |].
  apply (design_update_keeps_sender_sequence two_in_P1 two_in_P1 "c1").
  vm_compute; reflexivity.
Defined.

(** The sample states are states the server reaches. *)
Example two_in_P1_reached :
  ∃ out, run empty_server [Connection "c1"; Connection "c2";
                           JoinProject "c1" (str "P1"); JoinProject "c2" (str "P1")]
         = Done two_in_P1 out.
Proof. eexists. vm_compute. reflexivity. Qed.

Example only_c2_in_P2_reached :
  ∃ out, run empty_server [Connection "c1"; Connection "c2"; JoinProject "c2" (str "P2")]
         = Done only_c2_in_P2 out.
Proof. eexists. vm_compute. reflexivity. Qed.

Example c1_alone_in_P1_reached :
  ∃ out, run empty_server [Connection "c1"; JoinProject "c1" (str "P1")]
         = Done c1_alone_in_P1 out.
Proof. eexists. vm_compute. reflexivity. Qed.

(** *** C2 *)

(** C2, as stated, fails: nothing is rejected.  "c1" has not joined "P2",
    where "c2" is; its update to "P2" is delivered to "c2", and "c1" is
    sent no error. *)
Lemma non_member_update_is_broadcast :
  members only_c2_in_P2 (PStr "P2") = {["c2"]} ∧
  ∃ out,
    on_design_update only_c2_in_P2 "c1" (update "P2" "X") = Done only_c2_in_P2 out ∧
    received "c2" out = [("design-update", update "P2" "X")] ∧
    received "c1" out = [].
Proof.
  split; [vm_compute; reflexivity |].
  eexists. split; [vm_compute; reflexivity |].
  split; vm_compute; reflexivity.
Qed.

(** C2, amended: a design-update whose sender is not a member of the
    target room is relayed like any other.  The handler returns normally,
    sends the sender nothing, leaves the server state (and so the sender's
    connection) as it was, and delivers the event once to every member of
    the target room that has not joined the room named by the sender's id,
    and to nobody else. *)
Theorem design_update_from_non_member
    (s : Server) (id : SocketId) (data : value) (r : Room) :
  get data "projectId" = Some (VPrim r) →
  id ∉ members s r →
  ∃ out,
    on_design_update s id data = Done s out ∧
    received id out = [] ∧
    (∀ t, t ∈ members s r → t ∉ members s (PStr id) →
          received t out = [("design-update", data)]) ∧
    (∀ t, t ∉ members s r ∨ t ∈ members s (PStr id) → received t out = []).
Proof.
  intros Hp Hid. eexists. split; [by apply design_update_done |].
  split; [| split].
  - rewrite received_emit_to, targeted_room. apply decide_False. by intros [? _].
  - intros t Ht Hex. rewrite received_emit_to, targeted_room. by apply decide_True.
  - intros t Ht. rewrite received_emit_to, targeted_room. apply decide_False.
    intros [? ?]. by destruct Ht.
Qed.

Lemma design_update_from_non_member_witness :
  get (update "P2" "X") "projectId" = Some (VPrim (PStr "P2")) ∧
  ("c1" ∉ members only_c2_in_P2 (PStr "P2")) ∧
  ∃ out,
    on_design_update only_c2_in_P2 "c1" (update "P2" "X") = Done only_c2_in_P2 out ∧
    received "c1" out = [] ∧
    (∀ t, t ∈ members only_c2_in_P2 (PStr "P2") →
          t ∉ members only_c2_in_P2 (PStr "c1") →
          received t out = [("design-update", update "P2" "X")]) ∧
    (∀ t, t ∉ members only_c2_in_P2 (PStr "P2") ∨
          t ∈ members only_c2_in_P2 (PStr "c1") → received t out = []).
Proof.
  split; [reflexivity |].
  split; [vm_compute; discriminate |].
  apply (design_update_from_non_member only_c2_in_P2 "c1" (update "P2" "X") (PStr "P2")).
  - reflexivity.
  - vm_compute; discriminate.
Defined.

(** *** C3 *)

(** C3, as stated, fails: "c1" joins "A" and then "B", and is a member of
    both (and of the room of its own id). *)
Lemma socket_in_two_rooms :
  ∃ s out,
    run empty_server [Connection "c1"; JoinProject "c1" (str "A");
                      JoinProject "c1" (str "B")] = Done s out ∧
    members s (PStr "A") = {["c1"]} ∧
    members s (PStr "B") = {["c1"]} ∧
    size (rooms_of s "c1") = 3.
Proof.
  eexists _, _. split; [vm_compute; reflexivity |].
  repeat split; vm_compute; reflexivity.
Qed.

(** C3, amended: a connection can be a member of several rooms at once.
    Joining room [b] makes the socket a member of [b] and ends no
    membership, of this socket or of any other: the rooms of the socket are
    the ones it had, and [b]. *)
Theorem join_keeps_other_rooms (s : Server) (id : SocketId) (b : Room) :
  on_join_project s id (VPrim b) =
    Done (socket_join s id b) [Log (LogJoined id (VPrim b))] ∧
  rooms_of (socket_join s id b) id = {[b]} ∪ rooms_of s id ∧
  ∀ t r, t ∈ members s r → t ∈ members (socket_join s id b) r.
Proof.
  split; [done |]. split.
  - apply set_eq. intros r.
    rewrite elem_of_union, elem_of_singleton, !elem_of_rooms_of, members_join.
    case_decide; set_solver.
  - intros t r Ht. rewrite members_join. case_decide; set_solver.
Qed.

(** *** C4 *)

Example c2_in_room_of_c1_reached :
  ∃ out, run empty_server
           [Connection "c1"; Connection "c2"; Connection "c3";
            JoinProject "c1" (str "P1"); JoinProject "c2" (str "P1");
            JoinProject "c3" (str "P1"); JoinProject "c2" (str "c1")]
         = Done c2_in_room_of_c1 out.
Proof. eexists. vm_compute. reflexivity. Qed.

(** C4, as stated, fails: "c1", "c2" and "c3" are the members of "P1", and
    "c2" has also joined the room named "c1".  The update "c1" sends to
    "P1" reaches "c3", but "c2", a member of the room and not the sender,
    receives nothing. *)
Lemma member_in_sender_room_gets_nothing :
  members c2_in_room_of_c1 (PStr "P1") = {["c1"; "c2"; "c3"]} ∧
  ∃ out,
    on_design_update c2_in_room_of_c1 "c1" (update "P1" "X") =
      Done c2_in_room_of_c1 out ∧
    received "c3" out = [("design-update", update "P1" "X")] ∧
    received "c2" out = [].
Proof.
  split; [vm_compute; reflexivity |].
  eexists. split; [vm_compute; reflexivity |].
  split; vm_compute; reflexivity.
Qed.

(** C4, amended: a design-update a connected socket sends to a room is
    delivered once to every member of the room that has not joined the room
    named by the sender's id, and to no socket of that room; the sender is
    in that room, so it never receives its own update back.  When no other
    socket has joined the room named by the sender's id, every member of
    the target room except the sender receives the update; and in a room of
    two or more members there is a member other than the sender. *)
Theorem design_update_reaches_other_members
    (es : list event) (s : Server) (out0 : list effect)
    (id : SocketId) (data : value) (r : Room) :
  run empty_server es = Done s out0 →
  id ∈ sockets s →
  get data "projectId" = Some (VPrim r) →
  ∃ out,
    on_design_update s id data = Done s out ∧
    (∀ t, t ∈ members s r → t ∉ members s (PStr id) →
          received t out = [("design-update", data)]) ∧
    (∀ t, t ∈ members s (PStr id) → received t out = []) ∧
    received id out = [] ∧
    (members s (PStr id) = {[id]} →
     ∀ t, t ∈ members s r → t ≠ id → received t out = [("design-update", data)]) ∧
    ((2 ≤ size (members s r))%nat → ∃ t, t ∈ members s r ∧ t ≠ id).
Proof.
  intros Hrun Hid Hp.
  pose proof (in_own_room_run es _ _ _ in_own_room_empty Hrun id Hid) as Hown.
  eexists. split; [by apply design_update_done |].
  assert (∀ t, t ∈ members s (PStr id) →
               received t (emit_to s id (room_target (VPrim r)) "design-update" data)
               = []) as Hex.
  { intros t Ht. rewrite received_emit_to. apply decide_False. by intros [_ ?]. }
  assert (∀ t, t ∈ members s r → t ∉ members s (PStr id) →
               received t (emit_to s id (room_target (VPrim r)) "design-update" data)
               = [("design-update", data)]) as Hin.
  { intros t Ht Hnot. rewrite received_emit_to, targeted_room.
    by apply decide_True. }
  split; [done |]. split; [done |]. split; [by apply Hex |]. split.
  - intros Honly t Ht Hne. apply Hin; [done |]. rewrite Honly. set_solver.
  - intros Hsize. destruct (decide (members s r ⊆ {[id]})) as [Hsub | Hnsub].
    + apply subseteq_size in Hsub. rewrite size_singleton in Hsub. lia.
    + apply difference_singleton_empty_not in Hnsub as [t Ht]. exists t. set_solver.
Qed.

Lemma design_update_reaches_other_members_witness :
  run empty_server [Connection "c1"; Connection "c2";
                    JoinProject "c1" (str "P1"); JoinProject "c2" (str "P1")] =
    Done two_in_P1 [Log (LogConnected "c1"); Log (LogConnected "c2");
                    Log (LogJoined "c1" (str "P1")); Log (LogJoined "c2" (str "P1"))] ∧
  "c1" ∈ sockets two_in_P1 ∧
  get (update "P1" "X") "projectId" = Some (VPrim (PStr "P1")) ∧
  ∃ out,
    on_design_update two_in_P1 "c1" (update "P1" "X") = Done two_in_P1 out ∧
    (∀ t, t ∈ members two_in_P1 (PStr "P1") → t ∉ members two_in_P1 (PStr "c1") →
          received t out = [("design-update", update "P1" "X")]) ∧
    (∀ t, t ∈ members two_in_P1 (PStr "c1") → received t out = []) ∧
    received "c1" out = [] ∧
    (members two_in_P1 (PStr "c1") = {["c1"]} →
     ∀ t, t ∈ members two_in_P1 (PStr "P1") → t ≠ "c1" →
          received t out = [("design-update", update "P1" "X")]) ∧
    ((2 ≤ size (members two_in_P1 (PStr "P1")))%nat →
     ∃ t, t ∈ members two_in_P1 (PStr "P1") ∧ t ≠ "c1").
Proof.
  split; [vm_compute; reflexivity |].
  split; [vm_compute; reflexivity |].
  split; [reflexivity |].
  apply (design_update_reaches_other_members
           [Connection "c1"; Connection "c2";
            JoinProject "c1" (str "P1"); JoinProject "c2" (str "P1")]
           two_in_P1
           [Log (LogConnected "c1"); Log (LogConnected "c2");
            Log (LogJoined "c1" (str "P1")); Log (LogJoined "c2" (str "P1"))]
           "c1" (update "P1" "X") (PStr "P1")).
  - vm_compute; reflexivity.
  - vm_compute; reflexivity.
  - reflexivity.
Defined.

(** *** C5 *)

(** C5, as stated, fails in its last part: a room has no [lastSequence].
    "c1", alone in "P1", disconnects and the room is deleted; "c2" and "c3"
    then join "P1".  A counter reset to 0 would number the first update of
    the new room 1; the update "c2" sends reaches "c3" with no [sequence]. *)
Lemma recreated_room_has_no_counter :
  ∃ s1 out1 s2 out2,
    step c1_alone_in_P1 (Disconnect "c1") = Done s1 out1 ∧
    rooms s1 !! PStr "P1" = None ∧
    run s1 [Connection "c2"; Connection "c3"; JoinProject "c2" (str "P1");
            JoinProject "c3" (str "P1"); DesignUpdate "c2" (update "P1" "X")]
      = Done s2 out2 ∧
    members s2 (PStr "P1") = {["c2"; "c3"]} ∧
    sequences "c3" out2 = [Some undefined] ∧
    sequences "c3" out2 ≠ [Some (VPrim (PNum 1))].
Proof.
  eexists _, _, _, _. split; [vm_compute; reflexivity |].
  split; [vm_compute; reflexivity |].
  split; [vm_compute; reflexivity |].
  split; [vm_compute; reflexivity |].
  split; [vm_compute; reflexivity | vm_compute; discriminate].
Qed.

(** C5, amended: when a connection disconnects, the same step removes it
    from every room it was in and leaves the other members where they were;
    a room it was the last member of ceases to exist, and a later join to
    that room name creates the room anew with the joiner as its only
    member.  Rooms carry no sequence counter. *)
Theorem disconnect_leaves_every_room (s : Server) (id : SocketId) :
  on_disconnect s id = Done (socket_leave_all s id) [Log (LogDisconnected id)] ∧
  (∀ r, members (socket_leave_all s id) r = members s r ∖ {[id]}) ∧
  (∀ r, members s r ⊆ {[id]} → rooms (socket_leave_all s id) !! r = None) ∧
  (∀ r t, rooms (socket_leave_all s id) !! r = None →
          rooms (socket_join (socket_leave_all s id) t r) !! r = Some {[t]}).
Proof.
  split; [done |]. split; [| split].
  - apply members_leave_all.
  - intros r. apply room_deleted_iff.
  - intros r t Hnone. unfold socket_join at 1. cbn [rooms].
    rewrite lookup_insert_eq. unfold members. rewrite Hnone. cbn [default].
    f_equal. set_solver.
Qed.

(** *** C6 *)

(** C6, as stated, fails: with "c1" in "P1", the join of "c2" into "P1"
    sends "c1" nothing, and so does the disconnection of "c2"; each only
    writes a log line. *)
Lemma no_membership_events :
  members c1_alone_in_P1 (PStr "P1") = {["c1"]} ∧
  ∃ s1 s2 s3,
    step c1_alone_in_P1 (Connection "c2") = Done s1 [Log (LogConnected "c2")] ∧
    step s1 (JoinProject "c2" (str "P1")) = Done s2 [Log (LogJoined "c2" (str "P1"))] ∧
    members s2 (PStr "P1") = {["c1"; "c2"]} ∧
    step s2 (Disconnect "c2") = Done s3 [Log (LogDisconnected "c2")] ∧
    members s3 (PStr "P1") = {["c1"]} ∧
    received "c1" [Log (LogJoined "c2" (str "P1"))] = [] ∧
    received "c1" [Log (LogDisconnected "c2")] = [].
Proof.
  split; [vm_compute; reflexivity |].
  eexists _, _, _. split; [vm_compute; reflexivity |].
  split; [vm_compute; reflexivity |].
  split; [vm_compute; reflexivity |].
  split; [vm_compute; reflexivity |].
  split; [vm_compute; reflexivity |].
  split; reflexivity.
Qed.

(** C6, amended: joining a room and disconnecting notify nobody.  Whatever
    the state and the room, each of the two handlers writes one log line
    and emits no event to any client. *)
Theorem join_and_disconnect_are_silent
    (s s' : Server) (id : SocketId) (projectId : value) (out : list effect) :
  on_join_project s id projectId = Done s' out ∨ on_disconnect s id = Done s' out →
  (∃ l, out = [Log l]) ∧ ∀ t, received t out = [].
Proof.
  unfold on_join_project, on_disconnect.
  intros [Hj | Hd].
  - destruct (as_room projectId); [| done].
    injection Hj as _ <-. split; [by eexists | done].
  - injection Hd as _ <-. split; [by eexists | done].
Qed.

Lemma join_and_disconnect_are_silent_witness :
  (on_join_project c1_alone_in_P1 "c1" (str "P2") =
     Done (socket_join c1_alone_in_P1 "c1" (PStr "P2")) [Log (LogJoined "c1" (str "P2"))] ∨
   on_disconnect c1_alone_in_P1 "c1" =
     Done (socket_join c1_alone_in_P1 "c1" (PStr "P2")) [Log (LogJoined "c1" (str "P2"))]) ∧
  ((∃ l, [Log (LogJoined "c1" (str "P2"))] = [Log l]) ∧
   ∀ t, received t [Log (LogJoined "c1" (str "P2"))] = []).
Proof.
  split; [left; reflexivity |].
  apply (join_and_disconnect_are_silent c1_alone_in_P1
           (socket_join c1_alone_in_P1 "c1" (PStr "P2")) "c1" (str "P2")).
  left; reflexivity.
Defined.

(** *** The wire: parsing a text and writing it again *)






(** *** C7 *)




(** *** C8 *)

(** C8, as stated, fails: not every inbound design-update is emitted to
    the room its projectId names.  A design-update whose data is [null]
    makes the handler throw, and nothing is emitted; and one whose
    projectId is the empty array names no room, yet reaches "c1", a socket
    that has joined no project. *)
Lemma update_without_target_room :
  on_design_update only_c2_in_P2 "c2" (VPrim PNull) = Throws ∧
  rooms_of only_c2_in_P2 "c1" = {[PStr "c1"]} ∧
  ∃ out,
    on_design_update only_c2_in_P2 "c2" (update_to_nobody_named "X") =
      Done only_c2_in_P2 out ∧
    received "c1" out = [("design-update", update_to_nobody_named "X")].
Proof.
  split; [reflexivity |].
  split; [vm_compute; reflexivity |].
  eexists. split; vm_compute; reflexivity.
Qed.

(** C8, amended: whom a design-update goes to is determined by the data
    the sender supplies.  When the data is [null] or [undefined] the
    handler throws and nothing is emitted.  Otherwise the projectId read
    from the data selects the targets (the room it names; the rooms an array
    lists; every connected socket for the empty array; none for an object),
    and a client receives the event exactly when it is targeted and has not
    joined the room named by the sender's id.  The rooms the sender has
    joined play no part: had the sender, a member of the room of its own id,
    joined any further room first, every client would receive the same. *)
Theorem design_update_targets_projectId_room
    (s : Server) (id : SocketId) (data : value) :
  (nullish data ∧ on_design_update s id data = Throws) ∨
  ∃ p out,
    get data "projectId" = Some p ∧
    on_design_update s id data = Done s out ∧
    (∀ t, received t out =
          if decide (t ∈ targeted s (room_target p) ∧ t ∉ members s (PStr id))
          then [("design-update", data)] else []) ∧
    (id ∈ members s (PStr id) →
     ∀ r', ∃ out',
       on_design_update (socket_join s id r') id data =
         Done (socket_join s id r') out' ∧
       ∀ t, received t out' = received t out).
Proof.
  destruct (get data "projectId") as [p |] eqn:Hp.
  - right. exists p. eexists. split; [done |].
    split; [by apply design_update_done |].
    split; [intros t; apply received_emit_to |].
    intros Hown r'. eexists. split; [by apply design_update_done |]. intros t.
    rewrite !received_emit_to.
    assert (members (socket_join s id r') (PStr id) = members s (PStr id)) as ->.
    { rewrite members_join. case_decide; [subst r'; set_solver | done]. }
    destruct (decide (t = id)) as [-> | Hne].
    + rewrite !decide_False; [done | by intros [_ ?] | by intros [_ ?]].
    + destruct (decide (t ∈ targeted s (room_target p) ∧ t ∉ members s (PStr id)))
        as [[Ht Hex] | Hn].
      * rewrite decide_True; [done |]. split; [by apply targeted_join | done].
      * rewrite decide_False; [done |]. intros [Ht Hex]. apply Hn.
        split; [by apply (targeted_join s id t r') | done].
  - left. split; [by apply (get_None data "projectId") |].
    unfold on_design_update. by rewrite Hp.
Qed.

Lemma design_update_targets_projectId_room_witness :
  "c2" ∈ members only_c2_in_P2 (PStr "c2") ∧
  ∃ p out,
    get (update_to_nobody_named "X") "projectId" = Some p ∧
    on_design_update only_c2_in_P2 "c2" (update_to_nobody_named "X") =
      Done only_c2_in_P2 out ∧
    (∀ t, received t out =
          if decide (t ∈ targeted only_c2_in_P2 (room_target p) ∧
                     t ∉ members only_c2_in_P2 (PStr "c2"))
          then [("design-update", update_to_nobody_named "X")] else []) ∧
    ("c2" ∈ members only_c2_in_P2 (PStr "c2") →
     ∀ r', ∃ out',
       on_design_update (socket_join only_c2_in_P2 "c2" r') "c2"
                        (update_to_nobody_named "X") =
         Done (socket_join only_c2_in_P2 "c2" r') out' ∧
       ∀ t, received t out' = received t out).
Proof.
  split; [vm_compute; reflexivity |].
  destruct (design_update_targets_projectId_room
              only_c2_in_P2 "c2" (update_to_nobody_named "X"))
    as [[[Hn | Hn] _] | H]; [discriminate Hn | discriminate Hn | exact H].
Defined.

(* --------------------------------------------------------------------- *)
(** *** Further properties of the relay                                   *)
(* --------------------------------------------------------------------- *)

(** Every state the server reaches from its start is consistent: no room
    is empty, and every member of a room is a connected socket. *)
Theorem reachable_consistent (es : list event) (s : Server) (out : list effect) :
  run empty_server es = Done s out → consistent s.
Proof. apply consistent_run, consistent_empty. Qed.

Lemma reachable_consistent_witness :
  run empty_server [Connection "c1"; JoinProject "c1" (str "P1")] =
    Done c1_alone_in_P1 [Log (LogConnected "c1"); Log (LogJoined "c1" (str "P1"))] ∧
  consistent c1_alone_in_P1.
Proof.
  split; [vm_compute; reflexivity |].
  apply (reachable_consistent [Connection "c1"; JoinProject "c1" (str "P1")] c1_alone_in_P1
           [Log (LogConnected "c1"); Log (LogJoined "c1" (str "P1"))]).
  vm_compute; reflexivity.
Defined.

(** Events are only ever sent to connected sockets other than the sender:
    in a reachable state, whatever a design-update delivers goes to a
    socket that is connected and is not the one that submitted it. *)
Theorem sends_only_to_connected_others
    (es : list event) (s s' : Server) (out0 out : list effect)
    (id : SocketId) (data : value) :
  run empty_server es = Done s out0 →
  on_design_update s id data = Done s' out →
  ∀ e, e ∈ out → ∃ t, e = Send t "design-update" data ∧ t ∈ sockets s ∧ t ≠ id.
Proof.
  intros Hrun (p & _ & -> & ->)%design_update_inv e He.
  pose proof (reachable_consistent _ _ _ Hrun) as Hc.
  pose proof (in_own_room_run es _ _ _ in_own_room_empty Hrun) as Hown.
  destruct e as [l | t ev d]; [by apply log_not_in_emit_to in He |].
  apply elem_of_emit_to in He as (Hin & Hex & -> & ->).
  apply (targeted_connected s _ Hc) in Hin.
  exists t. split; [done |]. split; [done |].
  intros ->. by apply Hex, Hown.
Qed.

Lemma sends_only_to_connected_others_witness :
  run empty_server [Connection "c1"; Connection "c2";
                    JoinProject "c1" (str "P1"); JoinProject "c2" (str "P1")] =
    Done two_in_P1 [Log (LogConnected "c1"); Log (LogConnected "c2");
                    Log (LogJoined "c1" (str "P1")); Log (LogJoined "c2" (str "P1"))] ∧
  on_design_update two_in_P1 "c1" (update "P1" "X") =
    Done two_in_P1 [Send "c2" "design-update" (update "P1" "X")] ∧
  ∀ e, e ∈ [Send "c2" "design-update" (update "P1" "X")] →
       ∃ t, e = Send t "design-update" (update "P1" "X") ∧
            t ∈ sockets two_in_P1 ∧ t ≠ "c1".
Proof.
  split; [vm_compute; reflexivity |].
  split; [vm_compute; reflexivity |].
  apply (sends_only_to_connected_others
           [Connection "c1"; Connection "c2";
            JoinProject "c1" (str "P1"); JoinProject "c2" (str "P1")]
           two_in_P1 two_in_P1
           [Log (LogConnected "c1"); Log (LogConnected "c2");
            Log (LogJoined "c1" (str "P1")); Log (LogJoined "c2" (str "P1"))]).
  - vm_compute; reflexivity.
  - vm_compute; reflexivity.
Defined.

(** Any client can address any other connected client directly: a
    design-update whose [projectId] is the socket id of a connected client
    is delivered to that client, whatever project rooms either of them has
    joined, unless that client has joined the room named by the sender's
    id. *)
Theorem direct_message_by_socket_id
    (es : list event) (s : Server) (out0 : list effect)
    (id t : SocketId) (data : value) :
  run empty_server es = Done s out0 →
  t ∈ sockets s →
  t ∉ members s (PStr id) →
  get data "projectId" = Some (VPrim (PStr t)) →
  ∃ out, on_design_update s id data = Done s out ∧
         received t out = [("design-update", data)].
Proof.
  intros Hrun Ht Hex Hp.
  pose proof (in_own_room_run es _ _ _ in_own_room_empty Hrun t Ht) as Hown.
  eexists. split; [by apply design_update_done |].
  rewrite received_emit_to, targeted_room. by apply decide_True.
Qed.

Lemma direct_message_by_socket_id_witness :
  run empty_server [Connection "c1"; Connection "c2"; JoinProject "c2" (str "P2")] =
    Done only_c2_in_P2 [Log (LogConnected "c1"); Log (LogConnected "c2");
                        Log (LogJoined "c2" (str "P2"))] ∧
  "c2" ∈ sockets only_c2_in_P2 ∧
  ("c2" ∉ members only_c2_in_P2 (PStr "c1")) ∧
  get (update "c2" "X") "projectId" = Some (VPrim (PStr "c2")) ∧
  ∃ out, on_design_update only_c2_in_P2 "c1" (update "c2" "X") = Done only_c2_in_P2 out ∧
         received "c2" out = [("design-update", update "c2" "X")].
Proof.
  split; [vm_compute; reflexivity |].
  split; [vm_compute; reflexivity |].
  split; [vm_compute; discriminate |].
  split; [reflexivity |].
  apply (direct_message_by_socket_id
           [Connection "c1"; Connection "c2"; JoinProject "c2" (str "P2")]
           only_c2_in_P2
           [Log (LogConnected "c1"); Log (LogConnected "c2");
            Log (LogJoined "c2" (str "P2"))] "c1" "c2" (update "c2" "X")).
  - vm_compute; reflexivity.
  - vm_compute; reflexivity.
  - vm_compute; discriminate.
  - reflexivity.
Defined.

(** **** What is never sent *)

Lemma step_without_update_silent (s s' : Server) (e : event) (out : list effect) :
  is_design_update e = false → step s e = Done s' out → ∀ t, received t out = [].
Proof.
  destruct e as [id | id p | id d | id]; simpl; try done; intros _;
    case_decide; try (by intros [= _ <-]).
  unfold on_join_project. destruct (as_room p); [| done]. by intros [= _ <-].
Qed.

(** Only design-update events make the server send anything: a run in
    which no client submits a design-update delivers no event to any
    client, however many connect, join and disconnect. *)
Theorem nothing_sent_without_update
    (es : list event) (s s' : Server) (out : list effect) :
  Forall (λ e, is_design_update e = false) es →
  run s es = Done s' out →
  ∀ t, received t out = [].
Proof.
  intros Hall. revert s out. induction Hall as [| e es He Hall IH]; intros s out; simpl.
  - by intros [= _ <-].
  - destruct (step s e) as [s1 out1 | |] eqn:Hstep; try done.
    destruct (run s1 es) as [s2 out2 | |] eqn:Hrun; try done.
    intros [= <- <-] t. rewrite received_app.
    by rewrite (step_without_update_silent _ _ _ _ He Hstep), (IH _ _ Hrun).
Qed.

Lemma nothing_sent_without_update_witness :
  Forall (λ e, is_design_update e = false)
         [Connection "c1"; JoinProject "c1" (str "P1")] ∧
  run empty_server [Connection "c1"; JoinProject "c1" (str "P1")] =
    Done c1_alone_in_P1 [Log (LogConnected "c1"); Log (LogJoined "c1" (str "P1"))] ∧
  ∀ t, received t [Log (LogConnected "c1"); Log (LogJoined "c1" (str "P1"))] = [].
Proof.
  split; [repeat constructor |].
  split; [vm_compute; reflexivity |].
  apply (nothing_sent_without_update [Connection "c1"; JoinProject "c1" (str "P1")]
           empty_server c1_alone_in_P1).
  - repeat constructor.
  - vm_compute; reflexivity.
Defined.

(** **** Joining again *)




(** **** A whole visit *)

(** [visited s id s']: [s'] is [s] with [id] connected and added to some
    rooms. *)
Lemma leave_after_joins (s s' : Server) (id : SocketId) :
  consistent s →
  id ∉ sockets s →
  sockets s' = {[id]} ∪ sockets s →
  (∀ r, rooms s' !! r = rooms s !! r ∨ rooms s' !! r = Some ({[id]} ∪ members s r)) →
  socket_leave_all s' id = s.
Proof.
  intros Hc Hid Hsock Hrooms.
  assert (∀ r, id ∉ members s r) as Hnot.
  { intros r Hin. unfold members in Hin.
    destruct (rooms s !! r) as [m |] eqn:Hr; simpl in Hin; [| set_solver].
    destruct (Hc r m Hr) as [_ Hsub]. set_solver. }
  destruct s as [socks rms]. unfold socket_leave_all. simpl in *. f_equal.
  - rewrite Hsock. set_solver.
  - apply map_eq. intros r. rewrite lookup_omap.
    specialize (Hnot r). unfold members in Hnot; simpl in Hnot.
    destruct (Hrooms r) as [-> | ->].
    + destruct (rms !! r) as [m |] eqn:Hr; simpl; [| done].
      destruct (Hc r m Hr) as [Hne _]. simpl in Hnot.
      unfold leave_room. assert (m ∖ {[id]} = m) as -> by set_solver.
      by rewrite decide_False.
    + simpl. unfold leave_room, members; simpl.
      destruct (rms !! r) as [m |] eqn:Hr; simpl in *.
      * destruct (Hc r m Hr) as [Hne _].
        assert (({[id]} ∪ m) ∖ {[id]} = m) as -> by set_solver.
        by rewrite decide_False.
      * assert (({[id]} ∪ ∅) ∖ {[id]} = (∅ : gset SocketId)) as -> by set_solver.
        by rewrite decide_True.
Qed.

Lemma joins_state (s : Server) (id : SocketId) (rs : list Room) (s0 : Server) :
  sockets s = {[id]} ∪ sockets s0 →
  (∀ r, rooms s !! r = rooms s0 !! r ∨ rooms s !! r = Some ({[id]} ∪ members s0 r)) →
  id ∈ sockets s →
  ∃ s' out,
    run s ((λ r, JoinProject id (VPrim r)) <$> rs) = Done s' out ∧
    sockets s' = {[id]} ∪ sockets s0 ∧
    (∀ r, rooms s' !! r = rooms s0 !! r ∨ rooms s' !! r = Some ({[id]} ∪ members s0 r)).
Proof.
  revert s. induction rs as [| r rs IH]; intros s Hsock Hrooms Hin.
  - by eexists _, _.
  - change ((λ r, JoinProject id (VPrim r)) <$> (r :: rs))
      with (JoinProject id (VPrim r) :: ((λ r, JoinProject id (VPrim r)) <$> rs)).
    cbn [run step]. rewrite decide_True by done.
    unfold on_join_project. cbn [as_room].
    destruct (IH (socket_join s id r)) as (s' & out & Hrun & Hs' & Hr').
    + done.
    + intros r'. unfold socket_join; simpl.
      destruct (decide (r = r')) as [<- | Hne].
      * rewrite lookup_insert_eq. right. f_equal. unfold members.
        destruct (Hrooms r) as [-> | ->]; simpl; [done | set_solver].
      * rewrite lookup_insert_ne by done. apply Hrooms.
    + done.
    + rewrite Hrun. by eexists _, _.
Qed.

(** A visit leaves no trace: when a client that was not connected
    connects, joins any rooms and disconnects, the server is back in the
    state it had before the client came, empty rooms gone. *)
Theorem visit_leaves_no_trace
    (es : list event) (s : Server) (out0 : list effect)
    (id : SocketId) (rs : list Room) :
  run empty_server es = Done s out0 →
  id ∉ sockets s →
  ∃ out, run s (visit id rs) = Done s out.
Proof.
  intros Hc%reachable_consistent Hid. unfold visit.
  cbn [run step]. rewrite decide_False by done. unfold on_connection.
  destruct (joins_state (socket_connect s id) id rs s) as (s' & out & Hrun & Hs' & Hr').
  - done.
  - intros r. unfold socket_connect, socket_join; simpl.
    destruct (decide (PStr id = r)) as [<- | Hne].
    + rewrite lookup_insert_eq. by right.
    + rewrite lookup_insert_ne by done. by left.
  - unfold socket_connect, socket_join; simpl. set_solver.
  - rewrite run_app, Hrun. cbn [run step].
    rewrite decide_True by (rewrite Hs'; set_solver).
    unfold on_disconnect. rewrite (leave_after_joins s s' id Hc Hid Hs' Hr').
    by eexists.
Qed.

Lemma visit_leaves_no_trace_witness :
  run empty_server [Connection "c1"; JoinProject "c1" (str "P1")] =
    Done c1_alone_in_P1 [Log (LogConnected "c1"); Log (LogJoined "c1" (str "P1"))] ∧
  ("c2" ∉ sockets c1_alone_in_P1) ∧
  ∃ out, run c1_alone_in_P1 (visit "c2" [PStr "P1"; PStr "P2"]) = Done c1_alone_in_P1 out.
Proof.
  split; [vm_compute; reflexivity |].
  split; [vm_compute; discriminate |].
  apply (visit_leaves_no_trace [Connection "c1"; JoinProject "c1" (str "P1")]
           c1_alone_in_P1
           [Log (LogConnected "c1"); Log (LogJoined "c1" (str "P1"))]).
  - vm_compute; reflexivity.
  - vm_compute; discriminate.
Defined.

(** **** Updates that are not well formed *)

(** A design-update whose data is [null] or [undefined] makes the handler
    throw when it reads [data.projectId]: nothing is delivered, and the run
    ends there whatever events would follow. *)
Theorem nullish_update_throws
    (s s1 : Server) (es1 es2 : list event) (out1 : list effect)
    (id : SocketId) (data : value) :
  run s es1 = Done s1 out1 →
  id ∈ sockets s1 →
  nullish data →
  run s (es1 ++ DesignUpdate id data :: es2) = Throws.
Proof.
  intros Hrun Hid Hnull. rewrite run_app, Hrun. cbn [run step].
  rewrite decide_True by done.
  by destruct Hnull as [-> | ->].
Qed.

Lemma nullish_update_throws_witness :
  run empty_server [Connection "c1"; JoinProject "c1" (str "P1")] =
    Done c1_alone_in_P1 [Log (LogConnected "c1"); Log (LogJoined "c1" (str "P1"))] ∧
  "c1" ∈ sockets c1_alone_in_P1 ∧
  nullish (VPrim PNull) ∧
  run empty_server ([Connection "c1"; JoinProject "c1" (str "P1")] ++
                    DesignUpdate "c1" (VPrim PNull) :: [Connection "c2"]) = Throws.
Proof.
  split; [vm_compute; reflexivity |].
  split; [vm_compute; reflexivity |].
  split; [by left |].
  apply (nullish_update_throws empty_server c1_alone_in_P1
           [Connection "c1"; JoinProject "c1" (str "P1")] [Connection "c2"]
           [Log (LogConnected "c1"); Log (LogJoined "c1" (str "P1"))]).
  - vm_compute; reflexivity.
  - vm_compute; reflexivity.
  - by left.
Defined.

(** A design-update whose data names no project is not rejected: its
    [projectId] reads as [undefined], and when no socket has joined a room
    of that name the update is dropped without any delivery or error. *)
Theorem update_without_projectId_dropped
    (s : Server) (id : SocketId) (fields : list (string * value)) :
  assoc "projectId" fields = None →
  members s PUndefined = ∅ →
  on_design_update s id (VObj fields) = Done s [].
Proof.
  intros Hf Hm. unfold on_design_update, get. rewrite Hf. simpl.
  unfold emit_to, socket_to. simpl. rewrite Hm.
  assert ((∅ ∪ ∅) ∖ members s (PStr id) = (∅ : gset SocketId)) as -> by set_solver.
  by rewrite elements_empty.
Qed.

Lemma update_without_projectId_dropped_witness :
  assoc "projectId" [("payload", str "X")] = None ∧
  members two_in_P1 PUndefined = ∅ ∧
  on_design_update two_in_P1 "c1" (VObj [("payload", str "X")]) = Done two_in_P1 [].
Proof.
  split; [reflexivity |].
  split; [vm_compute; reflexivity |].
  apply (update_without_projectId_dropped two_in_P1 "c1" [("payload", str "X")]).
  - reflexivity.
  - vm_compute; reflexivity.
Defined.

End RelayFacts.

(* ===================================================================== *)
(** ** Facts about the viewer's zoom                                      *)
(* ===================================================================== *)

Module ViewerFacts.
Import Viewer.
Local Set Warnings "-inexact-float".
Local Open Scope float_scope.

(** *** Comparison of binary64 values, on their specification *)

Lemma SFcompare_refl (a : spec_float) :
  a ≠ S754_nan → SFcompare a a = Some Eq.
Proof.
  destruct a as [s | s | | s m e]; simpl; intros Hn; try congruence.
  - by destruct s.
  - rewrite Z.compare_refl, Pos.compare_cont_refl. by destruct s.
Qed.

Lemma SFcompare_swap (a b : spec_float) :
  SFcompare b a = option_map CompOpp (SFcompare a b).
Proof.
  destruct a as [sa | sa | | sa ma ea], b as [sb | sb | | sb mb eb]; simpl;
    try reflexivity; try (by destruct sa); try (by destruct sb);
    try (by destruct sa, sb).
  rewrite (Z.compare_antisym ea eb).
  destruct sa, sb; simpl; try reflexivity;
    destruct (ea ?= eb)%Z; simpl; try reflexivity;
    change (Pos.compare_cont Eq mb ma) with (Pos.compare mb ma);
    change (Pos.compare_cont Eq ma mb) with (Pos.compare ma mb);
    rewrite (Pos.compare_antisym ma mb);
    by destruct (Pos.compare ma mb).
Qed.

Lemma SFcompare_None (a b : spec_float) :
  SFcompare a b = None → a = S754_nan ∨ b = S754_nan.
Proof.
  destruct a as [sa | sa | | sa ma ea], b as [sb | sb | | sb mb eb]; simpl;
    intros H; try discriminate; auto.
Qed.

(** *** Rounding never produces NaN *)

Lemma iter_pos_preserves {A : Type} (P : A → Prop) (f : A → A) :
  (∀ a, P a → P (f a)) → ∀ p a, P a → P (SpecFloat.iter_pos f p a).
Proof. intros Hf. induction p; simpl; auto. Qed.

Lemma shr_1_nonneg (mrs : shr_record) :
  (0 ≤ shr_m mrs)%Z → (0 ≤ shr_m (shr_1 mrs))%Z.
Proof.
  destruct mrs as [m r s]. destruct m as [| p | p]; simpl; try lia;
    destruct p; simpl; lia.
Qed.

Lemma shr_nonneg (mrs : shr_record) (e n : Z) :
  (0 ≤ shr_m mrs)%Z → (0 ≤ shr_m (shr mrs e n).1)%Z.
Proof.
  intros H. destruct n; simpl; try done.
  apply (iter_pos_preserves (λ r, (0 ≤ shr_m r)%Z)); [apply shr_1_nonneg | done].
Qed.

Lemma shr_fexp_nonneg (m e : Z) (l : location) :
  (0 ≤ m)%Z → (0 ≤ shr_m (shr_fexp prec emax m e l).1)%Z.
Proof.
  intros H. unfold shr_fexp. apply shr_nonneg.
  by destruct l as [| []].
Qed.

Lemma round_nearest_even_nonneg (m : Z) (l : location) :
  (0 ≤ m)%Z → (0 ≤ round_nearest_even m l)%Z.
Proof.
  intros H. destruct l as [| []]; simpl; try lia.
  destruct (Z.even m); lia.
Qed.

Lemma binary_round_aux_not_nan (sx : bool) (mx ex : Z) (lx : location) :
  (0 ≤ mx)%Z → binary_round_aux prec emax sx mx ex lx ≠ S754_nan.
Proof.
  intros H. unfold binary_round_aux.
  pose proof (shr_fexp_nonneg mx ex lx H) as H1.
  destruct (shr_fexp prec emax mx ex lx) as [mrs1 e1]; simpl in H1.
  pose proof (shr_fexp_nonneg _ e1 loc_Exact
                (round_nearest_even_nonneg _ (loc_of_shr_record mrs1) H1)) as H2.
  destruct (shr_fexp prec emax _ e1 loc_Exact) as [mrs2 e2]; simpl in H2.
  destruct (shr_m mrs2); [done | by destruct (e2 <=? emax - prec)%Z | lia].
Qed.

Lemma SF64mul_finite_not_nan (s1 s2 : bool) (m1 m2 : positive) (e1 e2 : Z) :
  SF64mul (S754_finite s1 m1 e1) (S754_finite s2 m2 e2) ≠ S754_nan.
Proof. apply binary_round_aux_not_nan. lia. Qed.

(** *** The interval *)

Lemma is_nan_false (a : float) : Prim2SF a ≠ S754_nan → is_nan a = false.
Proof.
  intros H. unfold is_nan. rewrite FloatAxioms.eqb_spec. unfold SFeqb.
  by rewrite SFcompare_refl.
Qed.

(** The constants of the wheel handler are finite and positive. *)
Lemma finite_tenth : ∃ m e, Prim2SF 0.1 = S754_finite false m e.
Proof. eexists _, _. vm_compute. reflexivity. Qed.

Lemma finite_three : ∃ m e, Prim2SF 3 = S754_finite false m e.
Proof. eexists _, _. vm_compute. reflexivity. Qed.

Lemma finite_wheel_delta (d : float) :
  d = 0.9 ∨ d = 1.1 → ∃ m e, Prim2SF d = S754_finite false m e.
Proof. intros [-> | ->]; eexists _, _; vm_compute; reflexivity. Qed.

Lemma in_range_finite (z : float) :
  in_range z = true → ∃ m e, Prim2SF z = S754_finite false m e.
Proof.
  unfold in_range. intros [Hlo Hhi]%andb_prop.
  rewrite FloatAxioms.leb_spec in Hlo, Hhi. unfold SFleb in Hlo, Hhi.
  destruct finite_tenth as (m1 & e1 & H1). destruct finite_three as (m3 & e3 & H3).
  rewrite H1 in Hlo. rewrite H3 in Hhi. revert Hlo Hhi.
  destruct (Prim2SF z) as [s | s | | s m e]; simpl; try discriminate.
  - destruct s; discriminate.
  - destruct s; [discriminate | eauto].
Qed.

Lemma is_nan_false_inv (a : float) : is_nan a = false → Prim2SF a ≠ S754_nan.
Proof.
  unfold is_nan. rewrite FloatAxioms.eqb_spec. unfold SFeqb.
  intros H Hn. rewrite Hn in H. discriminate.
Qed.

Lemma ltb_leb (a b : float) : (a <? b) = true → (a <=? b) = true.
Proof.
  rewrite FloatAxioms.ltb_spec, FloatAxioms.leb_spec. unfold SFltb, SFleb.
  by destruct (SFcompare (Prim2SF a) (Prim2SF b)) as [[]|].
Qed.

Lemma not_ltb_leb (a b : float) :
  is_nan a = false → is_nan b = false → (a <? b) = false → (b <=? a) = true.
Proof.
  intros Ha%is_nan_false_inv Hb%is_nan_false_inv.
  rewrite FloatAxioms.ltb_spec, FloatAxioms.leb_spec. unfold SFltb, SFleb.
  rewrite (SFcompare_swap (Prim2SF a) (Prim2SF b)).
  destruct (SFcompare (Prim2SF a) (Prim2SF b)) as [[]|] eqn:Hc; simpl; try done.
  apply SFcompare_None in Hc as [? | ?]; done.
Qed.

(** The product of a zoom inside the interval with a wheel factor is a
    number. *)
Lemma zoom_times_delta_not_nan (z d : float) :
  in_range z = true → d = 0.9 ∨ d = 1.1 → is_nan (z * d) = false.
Proof.
  intros (m & e & Hz)%in_range_finite (md & ed & Hd)%finite_wheel_delta.
  apply is_nan_false. rewrite mul_spec, Hz, Hd.
  apply SF64mul_finite_not_nan.
Qed.

(** Clamping a number lands in the interval. *)
Lemma clamp_in_range (a : float) :
  is_nan a = false → in_range (Math_max 0.1 (Math_min 3 a)) = true.
Proof.
  intros Ha.
  assert (Math_min 3 a = 3 ∨ (Math_min 3 a = a ∧ (a <=? 3) = true)) as Hmin.
  { unfold Math_min. change (is_nan 3) with false. rewrite Ha. cbn [orb].
    destruct (3 <? a) eqn:H3a; [by left | right].
    assert ((a <=? 3) = true) as Hle by (by apply not_ltb_leb).
    destruct (a <? 3); [done |]. by change (is_neg_zero 3) with false. }
  assert (∀ b, is_nan b = false → (b <=? 3) = true →
               in_range (Math_max 0.1 b) = true) as Hmax.
  { intros b Hb Hb3. unfold Math_max. change (is_nan 0.1) with false.
    rewrite Hb. cbn [orb].
    destruct (b <? 0.1) eqn:Hlt; [reflexivity |].
    destruct (0.1 <? b) eqn:Hgt.
    - unfold in_range. by rewrite (ltb_leb _ _ Hgt), Hb3.
    - change (is_neg_zero 0.1) with false. reflexivity. }
  destruct Hmin as [-> | [-> Hle]].
  - reflexivity.
  - by apply Hmax.
Qed.

Lemma handleWheel_in_range (readOnly : bool) (dy : float) (st : ViewState) :
  in_range (zoom st) = true → in_range (zoom (handleWheel readOnly dy st)) = true.
Proof.
  intros Hz. unfold handleWheel. destruct readOnly; [done |]. cbn [zoom].
  apply clamp_in_range, zoom_times_delta_not_nan; [done |].
  destruct (0 <? dy); auto.
Qed.

Lemma interact_in_range (st : ViewState) (re : bool * interaction) :
  in_range (zoom st) = true → in_range (zoom (interact st re)) = true.
Proof.
  intros Hz. destruct re as [readOnly e]. destruct e; cbn [interact].
  - unfold handleMouseDown. by destruct readOnly.
  - unfold handleMouseMove. by destruct (negb (isDragging st) || readOnly).
  - done.
  - done.
  - by apply handleWheel_in_range.
  - done.
  - reflexivity.
Qed.

Lemma interactions_in_range (es : list (bool * interaction)) (st : ViewState) :
  in_range (zoom st) = true → in_range (zoom (interactions st es)) = true.
Proof.
  revert st. induction es as [| re es IH]; intros st Hz; [done |].
  apply IH, interact_in_range, Hz.
Qed.

(** *** C9 *)

(** C9: the zoom starts at 1; a wheel event on a viewer that is not
    read-only sets it to [Math.max(0.1, Math.min(3, zoom * delta))] with
    [delta] 0.9 or 1.1, and on a read-only viewer leaves it as it is;
    resetView sets it to 1; and after any sequence of interactions it lies
    in the closed interval from 0.1 to 3. *)
Theorem zoom_always_in_range :
  zoom initial_view = 1 ∧
  (∀ st dy, ∃ delta, (delta = 0.9 ∨ delta = 1.1) ∧
     zoom (handleWheel false dy st) = Math_max 0.1 (Math_min 3 (zoom st * delta))) ∧
  (∀ st dy, zoom (handleWheel true dy st) = zoom st) ∧
  (∀ st, zoom (resetView st) = 1) ∧
  (∀ es, (0.1 <=? zoom (interactions initial_view es)) = true ∧ (zoom (interactions initial_view es) <=? 3) = true).
Proof.
  split; [reflexivity |]. split; [| split; [| split]].
  - intros st dy. exists (if 0 <? dy then 0.9 else 1.1).
    split; [destruct (0 <? dy); auto | reflexivity].
  - reflexivity.
  - reflexivity.
  - intros es. apply andb_prop. apply (interactions_in_range es initial_view). reflexivity.
Qed.

(* --------------------------------------------------------------------- *)
(** *** Further properties of the viewer                                  *)
(* --------------------------------------------------------------------- *)

Lemma interactions_cons (st : ViewState) (re : bool * interaction)
    (es : list (bool * interaction)) :
  interactions st (re :: es) = interactions (interact st re) es.
Proof. reflexivity. Qed.

Lemma zoom_wheels (delta : float) (dys : list float) (st : ViewState) :
  Forall (λ dy, (if 0 <? dy then 0.9 else 1.1) = delta) dys →
  zoom (interactions st (wheels dys)) = Nat.iter (length dys) (wheel_zoom delta) (zoom st).
Proof.
  intros Hall. revert st. induction Hall as [| dy dys Hdy Hall IH]; intros st; [done |].
  unfold wheels. rewrite fmap_cons, interactions_cons. fold (wheels dys).
  rewrite IH. cbn [length]. rewrite Nat.iter_succ_r. f_equal.
  cbn [interact handleWheel zoom]. by rewrite Hdy.
Qed.

Lemma iter_fixed {A : Type} (f : A → A) (a : A) (n : nat) :
  f a = a → Nat.iter n f a = a.
Proof. intros Hf. induction n as [| n IH]; [done |]. simpl. by rewrite IH. Qed.

Lemma iter_saturated {A : Type} (f : A → A) (a b : A) (k n : nat) :
  Nat.iter k f a = b → f b = b → (k ≤ n)%nat → Nat.iter n f a = b.
Proof.
  intros Hk Hb Hle. replace n with ((n - k) + k)%nat by lia.
  rewrite Nat.iter_add, Hk. by apply iter_fixed.
Qed.

(** Zooming in saturates: from the initial view, twelve or more wheel
    events that zoom in (deltaY not above 0, on a viewer that is not
    read-only) leave the zoom at exactly 3, the upper bound. *)
Theorem zoom_in_saturates (dys : list float) :
  Forall (λ dy, (0 <? dy) = false) dys →
  (12 ≤ length dys)%nat →
  zoom (interactions initial_view (wheels dys)) = 3.
Proof.
  intros Hall Hlen. rewrite (zoom_wheels 1.1).
  - apply (iter_saturated _ _ _ 12); [reflexivity | reflexivity | done].
  - eapply Forall_impl; [exact Hall |]. by intros dy ->.
Qed.

Lemma zoom_in_saturates_witness :
  Forall (λ dy, (0 <? dy) = false) (replicate 13 (-100)) ∧
  (12 ≤ length (replicate 13 (-100)%float))%nat ∧
  zoom (interactions initial_view (wheels (replicate 13 (-100)))) = 3.
Proof.
  split; [repeat constructor |].
  split; [simpl; lia |].
  apply (zoom_in_saturates (replicate 13 (-100))).
  - repeat constructor.
  - simpl; lia.
Defined.

(** Zooming out saturates: from the initial view, twenty-two or more wheel
    events that zoom out (deltaY above 0) leave the zoom at exactly 0.1,
    the lower bound. *)
Theorem zoom_out_saturates (dys : list float) :
  Forall (λ dy, (0 <? dy) = true) dys →
  (22 ≤ length dys)%nat →
  zoom (interactions initial_view (wheels dys)) = 0.1.
Proof.
  intros Hall Hlen. rewrite (zoom_wheels 0.9).
  - apply (iter_saturated _ _ _ 22); [reflexivity | reflexivity | done].
  - eapply Forall_impl; [exact Hall |]. by intros dy ->.
Qed.

Lemma zoom_out_saturates_witness :
  Forall (λ dy, (0 <? dy) = true) (replicate 22 100) ∧
  (22 ≤ length (replicate 22 100%float))%nat ∧
  zoom (interactions initial_view (wheels (replicate 22 100))) = 0.1.
Proof.
  split; [repeat constructor |].
  split; [simpl; lia |].
  apply (zoom_out_saturates (replicate 22 100)).
  - repeat constructor.
  - simpl; lia.
Defined.

(** A read-only viewer cannot be zoomed or dragged: when every interaction
    happens under [readOnly], the zoom is 1 and the viewer is not dragging,
    after any sequence of mouse, wheel and toolbar events. *)
Theorem read_only_viewer_fixed_zoom (es : list (bool * interaction)) :
  Forall (λ re, re.1 = true) es →
  zoom (interactions initial_view es) = 1 ∧
  isDragging (interactions initial_view es) = false.
Proof.
  intros Hall.
  assert (∀ st, zoom st = 1 ∧ isDragging st = false →
                zoom (interactions st es) = 1 ∧ isDragging (interactions st es) = false)
    as Hinv.
  { induction Hall as [| [ro e] es Hro Hall IH]; intros st [Hz Hd]; [done |].
    simpl in Hro. subst ro. rewrite interactions_cons. apply IH.
    destruct e; cbn [interact]; try done.
    unfold handleMouseMove. by rewrite Hd. }
  by apply Hinv.
Qed.

Lemma read_only_viewer_fixed_zoom_witness :
  Forall (λ re : bool * interaction, re.1 = true)
         [(true, MouseDown 5 5); (true, MouseMove 9 9); (true, Wheel 100)] ∧
  zoom (interactions initial_view
          [(true, MouseDown 5 5); (true, MouseMove 9 9); (true, Wheel 100)]) = 1 ∧
  isDragging (interactions initial_view
          [(true, MouseDown 5 5); (true, MouseMove 9 9); (true, Wheel 100)]) = false.
Proof.
  split; [repeat constructor |].
  apply (read_only_viewer_fixed_zoom
           [(true, MouseDown 5 5); (true, MouseMove 9 9); (true, Wheel 100)]).
  repeat constructor.
Defined.

(** Moving the mouse after the button is released does not rotate the
    scene: once [handleMouseUp] has run, any number of mouse moves leave the
    whole state as it is. *)
Theorem moves_after_release_do_nothing
    (st : ViewState) (ms : list (bool * (float * float))) :
  interactions (handleMouseUp st) (moves ms) = handleMouseUp st.
Proof.
  induction ms as [| m ms IH]; [done |].
  unfold moves. rewrite fmap_cons, interactions_cons. fold (moves ms).
  cbn [interact]. destruct m as [ro [cx cy]]. by rewrite <- IH at 2.
Qed.

(** Reset does not reset the view mode: after any view button and then
    Reset, the rotation is the one of the perspective view and the zoom is
    1, but [viewMode] is still the mode chosen before. *)
Theorem reset_keeps_view_mode (mode : string) (st : ViewState) :
  viewMode (resetView (changeViewMode mode st)) = mode ∧
  rotation (resetView (changeViewMode mode st)) =
    rotation (changeViewMode "perspective" st) ∧
  zoom (resetView (changeViewMode mode st)) = 1.
Proof. done. Qed.

End ViewerFacts.

(* ===================================================================== *)
(** ** Facts about the canvas undo                                        *)
(* ===================================================================== *)

Module CanvasFacts.
Import Canvas.

(** *** The object stack *)

Lemma canvas_remove_top (l : list object) (o : object) :
  o ∉ l → canvas_remove o (l ++ [o]) = l.
Proof.
  induction l as [| o' l IH]; intros Hnot; simpl.
  - by rewrite decide_True.
  - rewrite decide_False by set_solver. f_equal. apply IH. set_solver.
Qed.

Lemma top_lookup (l : list object) (o : object) :
  (l ++ [o]) !! (length (l ++ [o]) - 1) = Some o.
Proof.
  rewrite length_app; simpl.
  replace (length l + 1 - 1) with (length l) by lia.
  apply list_lookup_middle. done.
Qed.

Lemma older_not_elem (l : list object) (o : object) :
  Forall (λ o', older o' o) l → o ∉ l.
Proof.
  intros Hall Hin. rewrite Forall_forall in Hall.
  specialize (Hall o Hin). unfold older in Hall. lia.
Qed.

Lemma sorted_snoc_older (l : list object) (o : object) :
  StronglySorted older (l ++ [o]) → Forall (λ o', older o' o) l.
Proof.
  intros Hs. apply Forall_forall. intros o' Hin.
  apply (StronglySorted_app_1_elem_of _ _ _ _ _ Hs Hin). set_solver.
Qed.

Lemma construct_numbered (kinds : list shape) (n : nat) :
  StronglySorted older (construct n kinds) ∧
  Forall (λ o, n ≤ oid o < n + length kinds) (construct n kinds).
Proof.
  revert n. induction kinds as [| k kinds IH]; intros n; simpl.
  - split; constructor.
  - destruct (IH (S n)) as [Hs Hall]. split.
    + constructor; [done |].
      eapply Forall_impl; [exact Hall |]. unfold older; simpl. lia.
    + constructor; [simpl; lia |].
      eapply Forall_impl; [exact Hall |]. simpl. lia.
Qed.

(** *** The undo on a stack in construction order *)

Lemma undo_snoc (st : CanvasState) (l : list object) (o : object) :
  canvas st = Some (l ++ [o]) →
  o ∉ l →
  undo false st = mkCanvas (Some l) (fresh st).
Proof.
  intros Hc Hnot. unfold undo. rewrite Hc.
  rewrite decide_True by (rewrite length_app; simpl; lia).
  by rewrite top_lookup, canvas_remove_top.
Qed.

Lemma undo_empty (readOnly : bool) (st : CanvasState) :
  objects_of st = [] → undo readOnly st = st.
Proof.
  unfold objects_of, undo. destruct (canvas st) as [objs |]; simpl; [| done].
  intros ->. by destruct readOnly.
Qed.

Lemma undo_read_only (st : CanvasState) : undo true st = st.
Proof. unfold undo. by destruct (canvas st). Qed.

(** *** The numbering is kept by every action *)

Lemma well_numbered_unmounted : well_numbered unmounted.
Proof. split; constructor. Qed.

Lemma well_numbered_mount (d : list shape) (st : CanvasState) :
  well_numbered (mount d st).
Proof.
  destruct (construct_numbered d (fresh st)) as [Hs Hall].
  split; simpl; [done |].
  eapply Forall_impl; [exact Hall |]. simpl. lia.
Qed.

Lemma well_numbered_add (readOnly : bool) (k : shape) (st : CanvasState) :
  well_numbered st → well_numbered (add readOnly k st).
Proof.
  intros [Hs Hall]. unfold add.
  destruct (canvas st) as [objs |] eqn:Hc; [| by split].
  destruct readOnly; [by split |].
  unfold well_numbered, objects_of in *. rewrite Hc in Hs, Hall. simpl in *.
  unfold canvas_add. split.
  - apply StronglySorted_app_2; [| done | repeat constructor].
    intros o1 o2 Hin1 ->%list_elem_of_singleton.
    rewrite Forall_forall in Hall. by apply Hall.
  - apply Forall_app. split.
    + eapply Forall_impl; [exact Hall |]. simpl. lia.
    + constructor; [simpl; lia | constructor].
Qed.

Lemma well_numbered_clear (readOnly : bool) (st : CanvasState) :
  well_numbered st → well_numbered (clearCanvas readOnly st).
Proof.
  intros Hw. unfold clearCanvas.
  destruct (canvas st) as [objs |]; [| done].
  destruct readOnly; [done |]. split; constructor.
Qed.

Lemma well_numbered_undo (readOnly : bool) (st : CanvasState) :
  well_numbered st → well_numbered (undo readOnly st).
Proof.
  intros Hw. destruct readOnly; [by rewrite undo_read_only |].
  destruct (canvas st) as [objs |] eqn:Hc; [| unfold undo; by rewrite Hc].
  destruct (last objs) as [o |] eqn:Hlast.
  - apply last_Some in Hlast as [l ->].
    destruct Hw as [Hs Hall]. unfold objects_of in Hs, Hall. rewrite Hc in Hs, Hall.
    simpl in Hs, Hall.
    rewrite (undo_snoc st l o Hc) by by apply older_not_elem, sorted_snoc_older.
    split; simpl.
    + by apply StronglySorted_app_1_l in Hs.
    + by apply Forall_app in Hall as [? _].
  - apply last_None in Hlast as ->. rewrite undo_empty; [done |].
    unfold objects_of. by rewrite Hc.
Qed.

Lemma well_numbered_act (readOnly : bool) (a : action) (st : CanvasState) :
  well_numbered st → well_numbered (act readOnly st a).
Proof.
  destruct a; simpl.
  - intros _. apply well_numbered_mount.
  - apply well_numbered_add.
  - apply well_numbered_clear.
  - apply well_numbered_undo.
Qed.

Lemma well_numbered_session (acts : list (bool * action)) (st : CanvasState) :
  well_numbered st → well_numbered (session st acts).
Proof.
  revert st. induction acts as [| [ro a] acts IH]; intros st Hw; [done |].
  apply IH, well_numbered_act, Hw.
Qed.

(** *** C10 *)

(** C10: on a canvas the component has reached, undo changes nothing when
    there is no object (and nothing when there is no canvas yet); when there
    are objects, it takes the last one off the stack and leaves the others
    as they were, in their order, and that one is the most recently
    constructed object of the stack. *)
Theorem undo_removes_most_recent (acts : list (bool * action)) (readOnly : bool) :
  let st := session unmounted acts in
  (objects_of st = [] ∧ undo readOnly st = st) ∨
  (∃ l o, canvas st = Some (l ++ [o]) ∧
          undo false st = mkCanvas (Some l) (fresh st) ∧
          Forall (λ o', older o' o) l).
Proof.
  intros st.
  pose proof (well_numbered_session acts unmounted well_numbered_unmounted) as [Hs _].
  fold st in Hs. unfold objects_of in *.
  destruct (canvas st) as [objs |] eqn:Hc; simpl in *.
  - destruct (last objs) as [o |] eqn:Hlast.
    + right. apply last_Some in Hlast as [l ->]. exists l, o.
      pose proof (sorted_snoc_older l o Hs) as Hold.
      split; [done |]. split; [| done].
      apply (undo_snoc st l o); [done | by apply older_not_elem].
    + left. apply last_None in Hlast as ->. split; [done |].
      apply undo_empty. unfold objects_of. by rewrite Hc.
  - left. split; [done |]. apply undo_empty. unfold objects_of. by rewrite Hc.
Qed.

(** A rectangle, then a circle: undo takes the circle off. *)
Example undo_rect_then_circle :
  undo false (session unmounted rect_then_circle) =
  mkCanvas (Some [mkObject 0 Rect]) 2.
Proof. reflexivity. Qed.

(* --------------------------------------------------------------------- *)
(** *** Further properties of the canvas                                  *)
(* --------------------------------------------------------------------- *)

Lemma sorted_older_NoDup (objs : list object) :
  StronglySorted older objs → NoDup (oid <$> objs).
Proof.
  induction 1 as [| o objs Hs IH Hall]; simpl; constructor; [| done].
  rewrite list_elem_of_fmap. intros (o' & Heq & Hin).
  rewrite Forall_forall in Hall. specialize (Hall o' Hin).
  unfold older in Hall. lia.
Qed.

(** No object is on the canvas twice: in every state the component
    reaches, the objects of the stack have pairwise different identities,
    each numbered below the count of objects constructed so far. *)
Theorem objects_are_distinct (acts : list (bool * action)) :
  NoDup (oid <$> objects_of (session unmounted acts)) ∧
  Forall (λ o, oid o < fresh (session unmounted acts))
         (objects_of (session unmounted acts)).
Proof.
  destruct (well_numbered_session acts unmounted well_numbered_unmounted) as [Hs Hall].
  split; [by apply sorted_older_NoDup | done].
Qed.

Lemma add_then_undo (k : shape) (st : CanvasState) :
  well_numbered st → canvas (undo false (add false k st)) = canvas st.
Proof.
  intros [Hs Hall]. unfold add, objects_of in *.
  destruct (canvas st) as [objs |] eqn:Hc; simpl in *.
  - rewrite (undo_snoc _ objs (mkObject (fresh st) k)); [done | done |].
    intros Hin. rewrite Forall_forall in Hall. specialize (Hall _ Hin).
    simpl in Hall. lia.
  - unfold undo. by rewrite Hc.
Qed.

Lemma undo_objects (st : CanvasState) :
  well_numbered st →
  objects_of (undo false st) = take (length (objects_of st) - 1) (objects_of st).
Proof.
  intros [Hs _]. unfold objects_of in *.
  destruct (canvas st) as [objs |] eqn:Hc; simpl in *.
  - destruct (last objs) as [o |] eqn:Hlast.
    + apply last_Some in Hlast as [l ->].
      rewrite (undo_snoc st l o Hc)
        by by apply older_not_elem, sorted_snoc_older.
      simpl. rewrite length_app. simpl.
      replace (length l + 1 - 1) with (length l) by lia.
      by rewrite take_app_length.
    + apply last_None in Hlast as ->.
      rewrite undo_empty; [by rewrite Hc | unfold objects_of; by rewrite Hc].
  - unfold undo. rewrite Hc. by rewrite Hc.
Qed.

Lemma well_numbered_undo_iter (n : nat) (st : CanvasState) :
  well_numbered st → well_numbered (Nat.iter n (undo false) st).
Proof.
  intros Hw. induction n as [| n IH]; [done |]. rewrite Nat.iter_succ.
  by apply well_numbered_undo.
Qed.

(** Pressing Undo [n] times takes the [n] most recent objects off the
    canvas, and nothing else: the stack is the stack before cut to its
    first [length - n] objects; once [n] reaches the number of objects the
    canvas is empty and stays so. *)
Theorem undo_n_times (acts : list (bool * action)) (n : nat) :
  let st := session unmounted acts in
  objects_of (Nat.iter n (undo false) st) =
  take (length (objects_of st) - n) (objects_of st).
Proof.
  intros st.
  pose proof (well_numbered_session acts unmounted well_numbered_unmounted) as Hw.
  fold st in Hw. induction n as [| n IH].
  - simpl. rewrite Nat.sub_0_r. by rewrite firstn_all.
  - rewrite Nat.iter_succ, undo_objects by by apply well_numbered_undo_iter.
    rewrite IH, take_take, length_take. f_equal. lia.
Qed.

(** Undo does not bring back what Clear removed: after [clearCanvas] on an
    editable canvas, any number of undos leave the canvas as Clear left
    it. *)
Theorem clear_is_not_undone (readOnly : bool) (n : nat) (st : CanvasState) :
  Nat.iter n (undo readOnly) (clearCanvas false st) = clearCanvas false st.
Proof.
  induction n as [| n IH]; [done |]. rewrite Nat.iter_succ, IH.
  apply undo_empty. unfold clearCanvas, objects_of.
  by destruct (canvas st) as [objs |] eqn:Hc; simpl; rewrite ?Hc.
Qed.

(** A read-only component never changes its canvas: whatever toolbar
    actions reach it under [readOnly], the state stays as it was. *)
Theorem read_only_session_unchanged (acts : list (bool * action)) (st : CanvasState) :
  Forall read_only_action acts → session st acts = st.
Proof.
  induction 1 as [| [ro a] acts [Hro Hnm] Hall IH]; [done |].
  simpl in Hro, Hnm. subst ro. unfold session in *. cbn [foldl fst snd].
  rewrite <- IH at 2. f_equal.
  destruct a as [d | k | |]; cbn [act].
  - by destruct (Hnm d).
  - unfold add. by destruct (canvas st).
  - unfold clearCanvas. by destruct (canvas st).
  - apply undo_read_only.
Qed.

Lemma read_only_session_unchanged_witness :
  Forall read_only_action [(true, Add Rect); (true, Clear); (true, Undo)] ∧
  session (session unmounted rect_then_circle) [(true, Add Rect); (true, Clear); (true, Undo)]
  = session unmounted rect_then_circle.
Proof.
  split; [repeat constructor; discriminate |].
  apply (read_only_session_unchanged [(true, Add Rect); (true, Clear); (true, Undo)]).
  repeat constructor; discriminate.
Defined.

End CanvasFacts.

(* ===================================================================== *)
(** ** Facts about the toolbar                                            *)
(* ===================================================================== *)

Module CanvasToolsFacts.
Import Canvas CanvasFacts CanvasTools.
Local Open Scope string_scope.

Lemma board_sync_brush (readOnly : bool) (ts : ToolState) :
  board (sync_brush readOnly ts) = board ts.
Proof. unfold sync_brush. by destruct (canvas (board ts)). Qed.

Lemma tool_sync_brush (readOnly : bool) (ts : ToolState) :
  selectedTool (sync_brush readOnly ts) = selectedTool ts.
Proof. unfold sync_brush. by destruct (canvas (board ts)). Qed.

Lemma board_click_tool (tool : string) (ts : ToolState) :
  board (click_tool false tool ts) =
  match tool_shape tool with
  | Some k => add false k (board ts)
  | None => board ts
  end.
Proof.
  unfold click_tool. case_decide; rewrite ?board_sync_brush;
    unfold handleToolChange, tool_shape;
    (destruct (canvas (board ts)) as [objs |] eqn:Hc;
      [| repeat case_decide; simpl; try done; unfold add; by rewrite Hc]);
    repeat case_decide; simpl; try done; congruence.
Qed.

Lemma tool_click_tool (tool : string) (ts : ToolState) :
  selectedTool (click_tool false tool ts) = tool.
Proof.
  unfold click_tool. case_decide; rewrite ?tool_sync_brush;
    unfold handleToolChange; destruct (canvas (board ts));
    repeat case_decide; done.
Qed.

Lemma canvas_add_is_Some (ro : bool) (k : shape) (st : CanvasState) :
  is_Some (canvas st) → is_Some (canvas (add ro k st)).
Proof.
  intros [objs Hc]. unfold add. rewrite Hc. destruct ro; simpl; [by rewrite Hc |]. done.
Qed.

Lemma canvas_undo_is_Some (ro : bool) (st : CanvasState) :
  is_Some (canvas st) → is_Some (canvas (undo ro st)).
Proof.
  intros [objs Hc]. unfold undo. rewrite Hc. destruct ro; [by rewrite Hc |].
  case_decide; [| by rewrite Hc].
  destruct (objs !! (length objs - 1)); simpl; [done | by rewrite Hc].
Qed.

Lemma canvas_clear_is_Some (ro : bool) (st : CanvasState) :
  is_Some (canvas st) → is_Some (canvas (clearCanvas ro st)).
Proof.
  intros [objs Hc]. unfold clearCanvas. rewrite Hc. destruct ro; simpl; [by rewrite Hc |]. done.
Qed.

(** What an editing session keeps: the canvas exists, its objects are in
    construction order, and drawing mode is on exactly with the pen. *)
Lemma editing_invariant (initialData : list shape) (gs : list gesture) :
  let ts := editing initialData gs in
  is_Some (canvas (board ts)) ∧
  well_numbered (board ts) ∧
  isDrawingMode ts = bool_decide (selectedTool ts = "pen").
Proof.
  unfold editing.
  assert (∀ ts, is_Some (canvas (board ts)) ∧ well_numbered (board ts) ∧
                isDrawingMode ts = bool_decide (selectedTool ts = "pen") →
                let ts' := foldl perform ts gs in
                is_Some (canvas (board ts')) ∧ well_numbered (board ts') ∧
                isDrawingMode ts' = bool_decide (selectedTool ts' = "pen")) as Hinv.
  { induction gs as [| g gs IH]; intros ts Hts; [done |].
    cbn [foldl]. apply IH. destruct Hts as (Hc & Hw & Hd).
    destruct g as [tool | | | |]; cbn [perform].
    - split; [| split].
      + rewrite board_click_tool. destruct (tool_shape tool); [| done].
        by apply canvas_add_is_Some.
      + rewrite board_click_tool. destruct (tool_shape tool); [| done].
        by apply well_numbered_add.
      + destruct Hc as [objs Hc]. unfold click_tool. cbv zeta.
        destruct (decide (selectedTool ts = tool)) as [Hsame | Hdiff].
        * subst tool. unfold handleToolChange. rewrite Hc.
          repeat case_decide; simpl; try done;
            rewrite Hd; done.
        * unfold sync_brush.
          assert (is_Some (canvas (board (handleToolChange false tool ts)))) as [objs' ->].
          { unfold handleToolChange. rewrite Hc.
            repeat case_decide; simpl; try (by rewrite Hc);
              apply canvas_add_is_Some; by rewrite Hc. }
          simpl. by rewrite andb_true_r.
    - split; [by apply canvas_undo_is_Some | split; [by apply well_numbered_undo | done]].
    - split; [by apply canvas_clear_is_Some | split; [by apply well_numbered_clear | done]].
    - rewrite board_sync_brush, tool_sync_brush. split; [done | split; [done |]].
      unfold sync_brush. destruct Hc as [objs ->]. cbn [isDrawingMode].
      by rewrite andb_true_r.
    - destruct (isDrawingMode ts) eqn:Hm; [| by rewrite Hm].
      cbn [board selectedTool isDrawingMode].
      split; [by apply canvas_add_is_Some | split; [by apply well_numbered_add | done]]. }
  apply Hinv. unfold render_effects, create_canvas, sync_brush, first_render. simpl.
  split; [done |]. split; [apply well_numbered_mount | done].
Qed.

(** Drawing mode follows the pen: at every point of an editing session the
    fabric canvas is in drawing mode exactly when the pen is the selected
    tool. *)
Theorem drawing_mode_iff_pen (initialData : list shape) (gs : list gesture) :
  isDrawingMode (editing initialData gs) = true ↔
  selectedTool (editing initialData gs) = "pen".
Proof.
  destruct (editing_invariant initialData gs) as (_ & _ & ->).
  apply bool_decide_eq_true.
Qed.

(** A stroke draws only with the pen: with any other tool selected a
    stroke leaves the component unchanged, and with the pen it puts one new
    path on top of the stack. *)
Theorem stroke_needs_pen (initialData : list shape) (gs : list gesture) :
  let ts := editing initialData gs in
  (selectedTool ts ≠ "pen" → perform ts Stroke = ts) ∧
  (selectedTool ts = "pen" →
   objects_of (board (perform ts Stroke)) =
   (objects_of (board ts) ++ [mkObject (fresh (board ts)) Path])%list).
Proof.
  intros ts. destruct (editing_invariant initialData gs) as ([objs Hc] & _ & Hd).
  fold ts in Hc, Hd. cbn [perform]. rewrite Hd. split.
  - intros Hne. by rewrite bool_decide_eq_false_2.
  - intros Heq. rewrite bool_decide_eq_true_2 by done. simpl.
    unfold add, objects_of. by rewrite Hc.
Qed.

(** Every click on a shape button adds one shape: in an editing session a
    click on text, rectangle, circle, line or arrow puts exactly one new
    object of that kind on top of the stack, also when that tool is already
    the selected one; a click on any other tool leaves the objects as they
    are.  The clicked tool becomes the selected tool. *)
Theorem tool_click_adds_its_shape
    (initialData : list shape) (gs : list gesture) (tool : string) :
  let ts := editing initialData gs in
  selectedTool (perform ts (ClickTool tool)) = tool ∧
  objects_of (board (perform ts (ClickTool tool))) =
  (objects_of (board ts) ++
   match tool_shape tool with
   | Some k => [mkObject (fresh (board ts)) k]
   | None => []
   end)%list.
Proof.
  intros ts. destruct (editing_invariant initialData gs) as ([objs Hc] & _ & _).
  fold ts in Hc. cbn [perform]. split; [apply tool_click_tool |].
  rewrite board_click_tool. destruct (tool_shape tool) as [k |].
  - unfold add, objects_of. by rewrite Hc.
  - by rewrite app_nil_r.
Qed.

(** Undo takes back a click on a shape button, and a stroke of the pen:
    in an editing session, after a click on a shape tool, or after a stroke
    with the pen selected, one undo gives back the objects that were there
    before. *)
Theorem undo_takes_back_last_gesture
    (initialData : list shape) (gs : list gesture) (g : gesture) :
  (∃ tool k, g = ClickTool tool ∧ tool_shape tool = Some k) ∨
  (g = Stroke ∧ selectedTool (editing initialData gs) = "pen") →
  objects_of (board (perform (perform (editing initialData gs) g) ClickUndo)) =
  objects_of (board (editing initialData gs)).
Proof.
  intros Hg. destruct (editing_invariant initialData gs) as (_ & Hw & Hd).
  unfold objects_of. cbn [perform board]. f_equal.
  destruct Hg as [(tool & k & -> & Hk) | [-> Hpen]].
  - cbn [perform]. rewrite board_click_tool, Hk. by apply add_then_undo.
  - cbn [perform]. rewrite Hd, bool_decide_eq_true_2 by done.
    cbn [board]. by apply add_then_undo.
Qed.

Lemma undo_takes_back_last_gesture_witness :
  ((∃ tool k, ClickTool "circle" = ClickTool tool ∧ tool_shape tool = Some k) ∨
   (ClickTool "circle" = Stroke ∧ selectedTool (editing [Rect] [Stroke]) = "pen")) ∧
  objects_of (board (perform (perform (editing [Rect] [Stroke]) (ClickTool "circle"))
                             ClickUndo)) =
  objects_of (board (editing [Rect] [Stroke])).
Proof.
  split; [left; by exists "circle", Circle |].
  apply (undo_takes_back_last_gesture [Rect] [Stroke] (ClickTool "circle")).
  left. by exists "circle", Circle.
Defined.

Lemma construct_kinds (n : nat) (kinds : list shape) :
  kind <$> construct n kinds = kinds.
Proof.
  revert n. induction kinds as [| k kinds IH]; intros n; [done |].
  simpl. by rewrite IH.
Qed.

(** A change of [readOnly] rebuilds the canvas: after the two effects have
    run again, the canvas holds the objects of the initial data, in their
    order, and nothing that was drawn before; on a read-only component
    drawing mode is off whatever tool is selected. *)
Theorem readOnly_change_rebuilds_canvas
    (readOnly : bool) (initialData : list shape) (ts : ToolState) :
  kind <$> objects_of (board (render_effects readOnly initialData ts)) = initialData ∧
  selectedTool (render_effects readOnly initialData ts) = selectedTool ts ∧
  isDrawingMode (render_effects true initialData ts) = false.
Proof.
  unfold render_effects. rewrite board_sync_brush, tool_sync_brush.
  split; [apply construct_kinds |]. split; [done |].
  unfold sync_brush; simpl. by rewrite andb_false_r.
Qed.

End CanvasToolsFacts.
